(** * OneS: a byte-level diff/patch tool (main.py)

    A shallow embedding of [main.py]: the weighted edit-distance table
    ([levenstein_distance]), the backward walk that turns the table into a
    list of operations ([edit_path]), the 6-byte record codec used by
    [calculate_diff] and [apply_patch], and the replay loop of
    [apply_patch].

    Python integers are [Z]; a [bytes] object is a [list Z] whose elements
    lie in [0, 256); Python exceptions are values of [exn]; the [while]
    loops of [edit_path] and [apply_patch] take a fuel argument, and [None]
    means that the fuel ran out (it is never an answer of the program). *)

From stdpp Require Import base tactics option list list_numbers sorting.
From Stdlib Require Import ZArith Lia.

Local Open Scope Z_scope.

(** ** Python exceptions and the result of a call *)

Inductive exn : Set :=
  | IndexError      (* sequence index out of range *)
  | ValueError      (* OpCode(x) for an unknown x, bytes([x]) for x outside range(256) *)
  | AssertionError  (* a failed assert *)
  | StructError.    (* struct.error *)

Inductive result (A : Type) : Type :=
  | Ok (a : A)
  | Raise (e : exn).
Arguments Ok {A} a.
Arguments Raise {A} e.

Global Instance exn_eq_dec : EqDecision exn.
Proof. solve_decision. Defined.

Global Instance result_ret : MRet result := λ A a, Ok a.
Global Instance result_bind : MBind result := λ A B f m,
  match m with
  | Ok a => f a
  | Raise e => Raise e
  end.

(** ** Sequences indexed the way Python indexes them *)

(** [l[i]]: a negative index counts from the end, anything outside
    [-len(l), len(l)) raises IndexError. *)
Definition py_index (len : nat) (i : Z) : result nat :=
  if decide (0 ≤ i < Z.of_nat len) then Ok (Z.to_nat i)
  else if decide (- Z.of_nat len ≤ i < 0) then Ok (Z.to_nat (Z.of_nat len + i))
  else Raise IndexError.

Definition getitem {A} (l : list A) (i : Z) : result A :=
  k ← py_index (length l) i;
  match l !! k with
  | Some x => Ok x
  | None => Raise IndexError
  end.

Definition setitem {A} (l : list A) (i : Z) (x : A) : result (list A) :=
  k ← py_index (length l) i;
  Ok (<[k := x]> l).

(** [t[i][j]] and [t[i][j] = x] on a list of rows.  The rows of the table
    are distinct list objects (each one is built by its own inner
    comprehension), so writing into one row changes no other row. *)
Definition getitem2 {A} (t : list (list A)) (i j : Z) : result A :=
  row ← getitem t i;
  getitem row j.

Definition setitem2 {A} (t : list (list A)) (i j : Z) (x : A) : result (list (list A)) :=
  row ← getitem t i;
  row' ← setitem row j x;
  setitem t i row'.

(** [for x in xs: st = body x st], stopping at the first exception. *)
Fixpoint for_each {A S} (xs : list A) (body : A → S → result S) (st : S) : result S :=
  match xs with
  | [] => Ok st
  | x :: xs' => st' ← body x st; for_each xs' body st'
  end.

(** [range(lo, hi)] *)
Definition range (lo hi : Z) : list Z := seqZ lo (hi - lo).

(** [min(x, *xs, key=key)]: the first item whose key is minimal; a later
    item replaces the current one only when its key is strictly smaller. *)
Definition py_min {A} (key : A → Z) (x : A) (xs : list A) : A :=
  foldl (λ best y, if decide (key y < key best) then y else best) x xs.

(** ** The data of main.py *)

Record Distance : Set := mkDistance { cost : Z; prev_i : Z; prev_j : Z }.

Global Instance Distance_eq_dec : EqDecision Distance.
Proof. solve_decision. Defined.

Definition INSERT_COST : Z := 3.
Definition DELETE_COST : Z := 3.
Definition REPLACE_COST : Z := 2.

Inductive OpCode : Set := INSERT | DELETE | REPLACE.

Global Instance OpCode_eq_dec : EqDecision OpCode.
Proof. solve_decision. Defined.

(** The values of the IntEnum. *)
Definition OpCode_value (c : OpCode) : Z :=
  match c with
  | INSERT => 0
  | DELETE => 1
  | REPLACE => 2
  end.

(** [OpCode(x)]: ValueError when [x] is not the value of a member. *)
Definition OpCode_of (x : Z) : result OpCode :=
  if decide (x = 0) then Ok INSERT
  else if decide (x = 1) then Ok DELETE
  else if decide (x = 2) then Ok REPLACE
  else Raise ValueError.

Record Operation : Set := mkOperation { code : OpCode; location : Z; new_byte : Z }.

Global Instance Operation_eq_dec : EqDecision Operation.
Proof. solve_decision. Defined.

(** ** levenstein_distance *)

Section levenstein.
Context {T : Type} `{EqDecision T}.

(** The body of the inner [for j] loop: fills [distance[i][j]]. *)
Definition fill_cell (s1 s2 : list T) (i j : Z) (distance : list (list Distance))
    : result (list (list Distance)) :=
  a ← getitem s1 (i - 1);
  b ← getitem s2 (j - 1);
  if decide (a ≠ b) then
    d_del ← getitem2 distance (i - 1) j;
    d_ins ← getitem2 distance i (j - 1);
    d_rep ← getitem2 distance (i - 1) (j - 1);
    setitem2 distance i j
      (py_min cost
         (mkDistance (cost d_del + DELETE_COST) (i - 1) j)
         [mkDistance (cost d_ins + INSERT_COST) i (j - 1);
          mkDistance (cost d_rep + REPLACE_COST) (i - 1) (j - 1)])
  else
    d ← getitem2 distance (i - 1) (j - 1);
    setitem2 distance i j (mkDistance (cost d) (i - 1) (j - 1)).

(** The body of the first loop: fills [distance[0][j]]. *)
Definition fill_top (j : Z) (distance : list (list Distance))
    : result (list (list Distance)) :=
  d ← getitem2 distance 0 (j - 1);
  setitem2 distance 0 j (mkDistance (cost d + INSERT_COST) 0 (j - 1)).

(** The body of the [for i] loop: fills row [i]. *)
Definition fill_row (s1 s2 : list T) (m : Z) (i : Z) (distance : list (list Distance))
    : result (list (list Distance)) :=
  d ← getitem2 distance (i - 1) 0;
  distance ← setitem2 distance i 0 (mkDistance (cost d + DELETE_COST) (i - 1) 0);
  for_each (range 1 (m + 1)) (fill_cell s1 s2 i) distance.

Definition levenstein_distance (s1 s2 : list T) : result (list (list Distance)) :=
  let n := Z.of_nat (length s1) in
  let m := Z.of_nat (length s2) in
  let distance :=
    replicate (Z.to_nat (n + 1)) (replicate (Z.to_nat (m + 1)) (mkDistance 0 (-1) (-1))) in
  distance ← for_each (range 1 (m + 1)) fill_top distance;
  for_each (range 1 (n + 1)) (fill_row s1 s2 m) distance.
End levenstein.

(** ** edit_path *)

(** One iteration of the [while] loop, from [(i, j)] with the operations
    appended so far: the new [(i, j)] and the extended [path]. *)
Definition edit_path_body (distance : list (list Distance)) (s1 s2 : list Z)
    (i j : Z) (path : list Operation) : result (Z * Z * list Operation) :=
  d ← getitem2 distance i j;
  let prev_i := prev_i d in
  let prev_j := prev_j d in
  path ←
    (if decide (prev_i = i - 1 ∧ prev_j = j) then
       Ok (path ++ [mkOperation DELETE prev_i 0])
     else if decide (prev_i = i ∧ prev_j = j - 1) then
       b ← getitem s2 prev_j;
       Ok (path ++ [mkOperation INSERT prev_i b])
     else if decide (prev_i = i - 1 ∧ prev_j = j - 1) then
       a ← getitem s1 prev_i;
       b ← getitem s2 prev_j;
       if decide (a ≠ b) then
         b' ← getitem s2 (j - 1);
         Ok (path ++ [mkOperation REPLACE prev_i b'])
       else Ok path
     else Ok path);
  Ok (prev_i, prev_j, path).

(** [while (i, j) != (-1, -1): ...]; the result is the [path] list at the
    exit of the loop. *)
Fixpoint edit_path_loop (fuel : nat) (distance : list (list Distance)) (s1 s2 : list Z)
    (i j : Z) (path : list Operation) : option (result (list Operation)) :=
  if decide ((i, j) ≠ (-1, -1)) then
    match fuel with
    | O => None
    | S fuel' =>
        match edit_path_body distance s1 s2 i j path with
        | Ok (i', j', path') => edit_path_loop fuel' distance s1 s2 i' j' path'
        | Raise e => Some (Raise e)
        end
    end
  else Some (Ok path).

Definition edit_path (fuel : nat) (s1 s2 : list Z) : option (result (list Operation)) :=
  match levenstein_distance s1 s2 with
  | Ok distance =>
      match edit_path_loop fuel distance s1 s2
              (Z.of_nat (length s1)) (Z.of_nat (length s2)) [] with
      | Some (Ok path) => Some (Ok (reverse path))
      | other => other
      end
  | Raise e => Some (Raise e)
  end.

(** ** The 6-byte record: struct.pack, struct.unpack and bytes *)

(** [sys.byteorder]: format ['I'] is the machine's unsigned int, four bytes
    in the machine's byte order. *)
Inductive byteorder : Set := little | big.

Definition le_bytes (x : Z) : list Z :=
  [x `mod` 256; (x / 256) `mod` 256; (x / 65536) `mod` 256; (x / 16777216) `mod` 256].

(** [struct.pack('I', x)]: struct.error unless [0 <= x < 2**32]. *)
Definition struct_pack_I (order : byteorder) (x : Z) : result (list Z) :=
  if decide (0 ≤ x < 2 ^ 32) then
    Ok (match order with
        | little => le_bytes x
        | big => reverse (le_bytes x)
        end)
  else Raise StructError.

(** [struct.unpack('I', b)[0]]: struct.error unless [b] has four bytes. *)
Definition struct_unpack_I (order : byteorder) (b : list Z) : result Z :=
  match b with
  | [b0; b1; b2; b3] =>
      Ok (match order with
          | little => b0 + 256 * b1 + 65536 * b2 + 16777216 * b3
          | big => b3 + 256 * b2 + 65536 * b1 + 16777216 * b0
          end)
  | _ => Raise StructError
  end.

(** [bytes(l)]: ValueError unless every item is in [range(256)]. *)
Definition py_bytes (l : list Z) : result (list Z) :=
  if decide (Forall (λ x, 0 ≤ x < 256) l) then Ok l else Raise ValueError.

(** [l[lo:hi]] for [0 <= lo <= hi]; slicing never raises. *)
Definition slice {A} (l : list A) (lo hi : nat) : list A := take (hi - lo) (drop lo l).

(** The record written for one operation (line 94). *)
Definition encode_edit (order : byteorder) (edit : Operation) : result (list Z) :=
  p ← struct_pack_I order (location edit);
  py_bytes ([OpCode_value (code edit)] ++ p ++ [new_byte edit]).

(** The loop of [calculate_diff] over the operations, appending each
    record to the contents of the diff file. *)
Definition write_edits (order : byteorder) (edits : list Operation) : result (list Z) :=
  for_each edits (λ edit f, r ← encode_edit order edit; Ok (f ++ r)) [].

(** [calculate_diff], from the contents of the old and of the new file to
    the contents of the diff file. *)
Definition calculate_diff (order : byteorder) (fuel : nat) (old_data new_data : list Z)
    : option (result (list Z)) :=
  match edit_path fuel old_data new_data with
  | Some (Ok edits) => Some (write_edits order edits)
  | Some (Raise e) => Some (Raise e)
  | None => None
  end.

(** ** file_iter *)

(** What a generator does when it is run to its end: it yields items and
    then stops, or raises. *)
Inductive gen (A : Type) : Type :=
  | Stop
  | Yield (a : A) (rest : gen A)
  | Throw (e : exn).
Arguments Stop {A}.
Arguments Yield {A} a rest.
Arguments Throw {A} e.

(** [file.read(batch_size)] takes the next [batch_size] bytes, fewer at the
    end of the file.  Every pass of the loop that yields consumes a byte,
    so [length file] passes are enough: [reads] counts them down, and any
    larger count gives the same generator ([file_iter_from_enough]). *)
Fixpoint file_iter_from (reads : nat) (file : list Z) (batch_size : nat) (exact_batch : bool)
    : gen (list Z) :=
  let b := take batch_size file in
  match b with
  | [] => Stop
  | _ :: _ =>
      if exact_batch && negb (bool_decide (length b = batch_size)) then Throw AssertionError
      else
        match reads with
        | O => Stop
        | S reads' => Yield b (file_iter_from reads' (drop batch_size file) batch_size exact_batch)
        end
  end.

Definition file_iter (file : list Z) (batch_size : nat) (exact_batch : bool) : gen (list Z) :=
  file_iter_from (length file) file batch_size exact_batch.

(** [[f(x) for x in g]]: the generator is advanced one item at a time, and
    [f] runs on an item before the next one is asked for. *)
Fixpoint list_comprehension {A B} (f : A → result B) (g : gen A) : result (list B) :=
  match g with
  | Stop => Ok []
  | Throw e => Raise e
  | Yield a rest =>
      b ← f a;
      bs ← list_comprehension f rest;
      Ok (b :: bs)
  end.

(** ** apply_patch *)

(** The operation read from one record (line 100). *)
Definition decode_edit (order : byteorder) (edit_bytes : list Z) : result Operation :=
  t ← getitem edit_bytes 0;
  c ← OpCode_of t;
  l ← struct_unpack_I order (slice edit_bytes 1 5);
  x ← getitem edit_bytes 5;
  Ok (mkOperation c l x).

Definition read_edits (order : byteorder) (patch_file : list Z) : result (list Operation) :=
  list_comprehension (decode_edit order) (file_iter patch_file 6 true).

(** One iteration of the replay loop. *)
Definition apply_body (old_data : list Z) (edits : list Operation)
    (data_i edit_i : Z) (out : list Z) : result (Z * Z * list Z) :=
  hit ← (if decide (edit_i < Z.of_nat (length edits)) then
           e ← getitem edits edit_i;
           Ok (bool_decide (location e = data_i))
         else Ok false);
  if (hit : bool) then
    edit ← getitem edits edit_i;
    st ← match code edit with
         | REPLACE => w ← py_bytes [new_byte edit]; Ok (data_i + 1, out ++ w)
         | INSERT => w ← py_bytes [new_byte edit]; Ok (data_i, out ++ w)
         | DELETE => Ok (data_i + 1, out)
         end;
    Ok (st.1, edit_i + 1, st.2)
  else if decide (data_i < Z.of_nat (length old_data)) then
    x ← getitem old_data data_i;
    w ← py_bytes [x];
    Ok (data_i + 1, edit_i, out ++ w)
  else Ok (data_i, edit_i, out).

(** [while data_i < len(old_data) or edit_i < len(edits): ...]; the result
    is what has been written to the output file at the exit of the loop. *)
Fixpoint apply_loop (fuel : nat) (old_data : list Z) (edits : list Operation)
    (data_i edit_i : Z) (out : list Z) : option (result (list Z)) :=
  if decide (data_i < Z.of_nat (length old_data) ∨ edit_i < Z.of_nat (length edits)) then
    match fuel with
    | O => None
    | S fuel' =>
        match apply_body old_data edits data_i edit_i out with
        | Ok (data_i', edit_i', out') => apply_loop fuel' old_data edits data_i' edit_i' out'
        | Raise e => Some (Raise e)
        end
    end
  else Some (Ok out).

(** The replay of a list of operations on the old data. *)
Definition apply_edits (fuel : nat) (old_data : list Z) (edits : list Operation)
    : option (result (list Z)) :=
  apply_loop fuel old_data edits 0 0 [].

(** [apply_patch], from the contents of the old file and of the patch file
    to the contents of the output file.  (The operations are also printed;
    standard output is not modelled.) *)
Definition apply_patch (order : byteorder) (fuel : nat) (old_file patch_file : list Z)
    : option (result (list Z)) :=
  match read_edits order patch_file with
  | Ok edits => apply_edits fuel old_file edits
  | Raise e => Some (Raise e)
  end.

(** The script at the end of main.py: [calculate_diff] and then
    [apply_patch] on the file it wrote; the result is the contents of
    out.txt. *)
Definition main (order : byteorder) (fuel : nat) (old_f new_f : list Z)
    : option (result (list Z)) :=
  match calculate_diff order fuel old_f new_f with
  | Some (Ok diff_f) => apply_patch order fuel old_f diff_f
  | other => other
  end.

(** * The vocabulary of the properties *)

(** ** Tables *)

(** The cell at row [i], column [j] of a table, for indices counted from
    the start. *)
Definition zcell {A} (t : list (list A)) (i j : Z) : option A :=
  if decide (0 ≤ i ∧ 0 ≤ j) then row ← t !! Z.to_nat i; row !! Z.to_nat j else None.

Section table_rules.
Context {T : Type} `{EqDecision T}.
Variables s1 s2 : list T.

(** How the cell [(i, j)] of a finished table relates to its
    neighbours: the four assignments of the function. *)
Inductive cell_rule (t : list (list Distance)) : Z → Z → Prop :=
  | rule_origin :
      zcell t 0 0 = Some (mkDistance 0 (-1) (-1)) →
      cell_rule t 0 0
  | rule_top j d :
      1 ≤ j →
      zcell t 0 (j - 1) = Some d →
      zcell t 0 j = Some (mkDistance (cost d + INSERT_COST) 0 (j - 1)) →
      cell_rule t 0 j
  | rule_left i d :
      1 ≤ i →
      zcell t (i - 1) 0 = Some d →
      zcell t i 0 = Some (mkDistance (cost d + DELETE_COST) (i - 1) 0) →
      cell_rule t i 0
  | rule_inner i j a b d_del d_ins d_rep :
      1 ≤ i → 1 ≤ j →
      s1 !! Z.to_nat (i - 1) = Some a →
      s2 !! Z.to_nat (j - 1) = Some b →
      zcell t (i - 1) j = Some d_del →
      zcell t i (j - 1) = Some d_ins →
      zcell t (i - 1) (j - 1) = Some d_rep →
      zcell t i j =
        Some (if decide (a ≠ b) then
                py_min cost
                  (mkDistance (cost d_del + DELETE_COST) (i - 1) j)
                  [mkDistance (cost d_ins + INSERT_COST) i (j - 1);
                   mkDistance (cost d_rep + REPLACE_COST) (i - 1) (j - 1)]
              else mkDistance (cost d_rep) (i - 1) (j - 1)) →
      cell_rule t i j.

Definition table_ok (t : list (list Distance)) : Prop :=
  ∀ i j, 0 ≤ i ≤ Z.of_nat (length s1) → 0 ≤ j ≤ Z.of_nat (length s2) → cell_rule t i j.

(** The cells are filled row by row, each row from left to right. *)
Definition before (i j i0 j0 : Z) : Prop := i < i0 ∨ (i = i0 ∧ j < j0).

(** The state of the table just before cell [(i0, j0)] is written. *)
Definition filled_upto (i0 j0 : Z) (t : list (list Distance)) : Prop :=
  (∀ i j, 0 ≤ i ≤ Z.of_nat (length s1) → 0 ≤ j ≤ Z.of_nat (length s2) →
          is_Some (zcell t i j)) ∧
  (∀ i j, 0 ≤ i ≤ Z.of_nat (length s1) → 0 ≤ j ≤ Z.of_nat (length s2) →
          before i j i0 j0 → cell_rule t i j).

End table_rules.

(** The cost recorded in the cell [(i, j)]. *)
Definition cost_at (t : list (list Distance)) (i j : Z) : Z :=
  match zcell t i j with
  | Some d => cost d
  | None => 0
  end.

(** ** Walks and operations *)

Section walk_script.
Variables s1 s2 : list Z.
Variable t : list (list Distance).

(** [script i j ops]: following the back-pointers of [t] from the cell
    [(i, j)] down to the cell [(0, 0)] passes through the moves whose
    operations, listed from [(0, 0)] upwards, are [ops]. *)
Inductive script : Z → Z → list Operation → Prop :=
  | script_origin :
      zcell t 0 0 = Some (mkDistance 0 (-1) (-1)) →
      script 0 0 []
  | script_delete i j d' ops :
      1 ≤ i → 0 ≤ j →
      zcell t (i - 1) j = Some d' →
      zcell t i j = Some (mkDistance (cost d' + DELETE_COST) (i - 1) j) →
      script (i - 1) j ops →
      script i j (ops ++ [mkOperation DELETE (i - 1) 0])
  | script_insert i j d' b ops :
      0 ≤ i → 1 ≤ j →
      zcell t i (j - 1) = Some d' →
      zcell t i j = Some (mkDistance (cost d' + INSERT_COST) i (j - 1)) →
      s2 !! Z.to_nat (j - 1) = Some b →
      script i (j - 1) ops →
      script i j (ops ++ [mkOperation INSERT i b])
  | script_replace i j d' a b ops :
      1 ≤ i → 1 ≤ j →
      zcell t (i - 1) (j - 1) = Some d' →
      zcell t i j = Some (mkDistance (cost d' + REPLACE_COST) (i - 1) (j - 1)) →
      s1 !! Z.to_nat (i - 1) = Some a →
      s2 !! Z.to_nat (j - 1) = Some b →
      a ≠ b →
      script (i - 1) (j - 1) ops →
      script i j (ops ++ [mkOperation REPLACE (i - 1) b])
  | script_match i j d' a ops :
      1 ≤ i → 1 ≤ j →
      zcell t (i - 1) (j - 1) = Some d' →
      zcell t i j = Some (mkDistance (cost d') (i - 1) (j - 1)) →
      s1 !! Z.to_nat (i - 1) = Some a →
      s2 !! Z.to_nat (j - 1) = Some a →
      script (i - 1) (j - 1) ops →
      script i j ops.

End walk_script.

(** The pass of the loop at the cell [(0, 0)].  Its back-pointer
    [(-1, -1)] is taken for a diagonal move, and [s1[-1]] and [s2[-1]]
    are the last items of the two sequences. *)
Definition origin_pass (s1 s2 : list Z) (path : list Operation) : result (list Operation) :=
  match last s1, last s2 with
  | Some a, Some b =>
      Ok (if decide (a ≠ b) then path ++ [mkOperation REPLACE (-1) b] else path)
  | _, _ => Raise IndexError
  end.

(** What [edit_path] returns: the operations of the walk from
    [(len(s1), len(s2))], preceded by one more REPLACE at location [-1] when
    the last items of the two sequences differ; IndexError when one of the
    sequences is empty. *)
Definition edit_path_result (s1 s2 : list Z) (ops : list Operation) : result (list Operation) :=
  match last s1, last s2 with
  | Some a, Some b => Ok (if decide (a ≠ b) then mkOperation REPLACE (-1) b :: ops else ops)
  | _, _ => Raise IndexError
  end.

(** Operations listed by non-decreasing location. *)
Definition by_location (ops : list Operation) : Prop :=
  StronglySorted (λ o1 o2, location o1 ≤ location o2) ops.

(** The price of an operation under the cost constants of main.py. *)
Definition op_cost (o : Operation) : Z :=
  match code o with
  | INSERT => INSERT_COST
  | DELETE => DELETE_COST
  | REPLACE => REPLACE_COST
  end.

Definition path_cost (ops : list Operation) : Z :=
  foldr (λ o total, op_cost o + total) 0 ops.

(** ** Patches *)

(** An operation that fits a record: the location in four unsigned bytes,
    the new byte in one. *)
Definition fits_record (o : Operation) : Prop :=
  0 ≤ location o < 2 ^ 32 ∧ 0 ≤ new_byte o < 256.

(** Some whole record of the file starts with a byte that is no value of
    [OpCode]. *)
Definition unknown_tag (f : list Z) : Prop :=
  ∃ k x, (6 * k + 6 ≤ length f)%nat ∧ f !! (6 * k)%nat = Some x ∧ x ≠ 0 ∧ x ≠ 1 ∧ x ≠ 2.

(** No original byte is left and the operation at [edit_i] is located
    elsewhere than at the data cursor. *)
Definition dangling (old_data : list Z) (edits : list Operation) (data_i edit_i : Z) : Prop :=
  Z.of_nat (length old_data) ≤ data_i ∧ 0 ≤ edit_i ∧
  ∃ edit, edits !! Z.to_nat edit_i = Some edit ∧ location edit ≠ data_i.

(** ** Generators *)

(** The items a generator yields before it stops or raises. *)
Fixpoint gen_items {A} (g : gen A) : list A :=
  match g with
  | Stop => []
  | Yield a rest => a :: gen_items rest
  | Throw _ => []
  end.

(** The exception that ends a generator, if one does. *)
Fixpoint gen_raised {A} (g : gen A) : option exn :=
  match g with
  | Stop => None
  | Yield _ rest => gen_raised rest
  | Throw e => Some e
  end.

(** ** Replays *)

(** The number of operations with the code [c]. *)
Definition count_code (c : OpCode) (ops : list Operation) : nat :=
  length (filter (λ o, code o = c) ops).

(** Whether the data cursor, standing at [pos], arrives at the location
    of every operation in turn: a location is met when the cursor stands
    on it already, or when copying original bytes, which stops at
    [len_old], brings the cursor there. *)
Fixpoint reachable (len_old pos : Z) (edits : list Operation) : bool :=
  match edits with
  | [] => true
  | edit :: edits' =>
      bool_decide (pos ≤ location edit ∧ (location edit = pos ∨ location edit ≤ len_old))
      && reachable len_old
           (match code edit with
            | INSERT => location edit
            | _ => location edit + 1
            end) edits'
  end.

(** The bytes written from the data cursor [pos] on by a replay whose
    operations are all met: the original bytes up to each location, the new
    byte of an INSERT or a REPLACE, and the original bytes that remain. *)
Fixpoint patched (old_data : list Z) (pos : Z) (edits : list Operation) : list Z :=
  match edits with
  | [] => drop (Z.to_nat pos) old_data
  | edit :: edits' =>
      take (Z.to_nat (location edit - pos)) (drop (Z.to_nat pos) old_data) ++
      match code edit with
      | INSERT => new_byte edit :: patched old_data (location edit) edits'
      | DELETE => patched old_data (location edit + 1) edits'
      | REPLACE => new_byte edit :: patched old_data (location edit + 1) edits'
      end
  end.

(** * The program on small inputs *)

Example edit_path_abc_axc :
  edit_path 10 [97; 98; 99] [97; 120; 99] = Some (Ok [mkOperation REPLACE 1 120]).
Proof. vm_compute. reflexivity. Qed.

Example edit_path_abc_ac :
  edit_path 10 [97; 98; 99] [97; 99] = Some (Ok [mkOperation DELETE 1 0]).
Proof. vm_compute. reflexivity. Qed.

Example edit_path_ac_abc :
  edit_path 10 [97; 99] [97; 98; 99] = Some (Ok [mkOperation INSERT 1 98]).
Proof. vm_compute. reflexivity. Qed.

Example edit_path_a_b :
  edit_path 10 [97] [98] = Some (Ok [mkOperation REPLACE (-1) 98; mkOperation REPLACE 0 98]).
Proof. vm_compute. reflexivity. Qed.

Example edit_path_nil_b :
  edit_path 10 [] [98] = Some (Raise IndexError).
Proof. vm_compute. reflexivity. Qed.

Example main_abc_axc : main little 10 [97; 98; 99] [97; 120; 99] = Some (Ok [97; 120; 99]).
Proof. vm_compute. reflexivity. Qed.

Example main_abc_ac : main big 10 [97; 98; 99] [97; 99] = Some (Ok [97; 99]).
Proof. vm_compute. reflexivity. Qed.

Example main_ac_abc : main little 10 [97; 99] [97; 98; 99] = Some (Ok [97; 98; 99]).
Proof. vm_compute. reflexivity. Qed.

Example main_a_b : main little 10 [97] [98] = Some (Raise StructError).
Proof. vm_compute. reflexivity. Qed.

Example diff_ac_abc : calculate_diff little 10 [97; 99] [97; 98; 99] = Some (Ok [0; 1; 0; 0; 0; 98]).
Proof. vm_compute. reflexivity. Qed.

Example apply_dangling : apply_patch little 50 [] [0; 1; 0; 0; 0; 65] = None.
Proof. vm_compute. reflexivity. Qed.

Example read_short : read_edits little [0; 1; 0; 0; 0; 65; 7] = Raise AssertionError.
Proof. vm_compute. reflexivity. Qed.

Example read_tag : read_edits little [3; 1; 0; 0; 0; 65; 7] = Raise ValueError.
Proof. vm_compute. reflexivity. Qed.

(** * Properties *)

(** ** Indexing with an index that is in range *)

Lemma py_index_nonneg (len : nat) (i : Z) :
  0 ≤ i < Z.of_nat len → py_index len i = Ok (Z.to_nat i).
Proof. intros Hi. unfold py_index. rewrite decide_True by done. done. Qed.

Lemma getitem_lookup {A} (l : list A) (i : Z) (x : A) :
  0 ≤ i → l !! Z.to_nat i = Some x → getitem l i = Ok x.
Proof.
  intros Hi Hx. unfold getitem.
  rewrite py_index_nonneg by (apply lookup_lt_Some in Hx; lia).
  simpl. by rewrite Hx.
Qed.

Lemma getitem_last {A} (l : list A) (x : A) : getitem (l ++ [x]) (-1) = Ok x.
Proof.
  unfold getitem, py_index. rewrite length_app. cbn [length].
  rewrite decide_False by lia. rewrite decide_True by lia. cbn [mbind result_bind].
  replace (Z.to_nat (Z.of_nat (length l + 1) + -1)) with (length l + 0)%nat by lia.
  rewrite lookup_app_r by lia.
  by replace (length l + 0 - length l)%nat with 0%nat by lia.
Qed.

Lemma getitem_nil {A} (i : Z) : getitem (@nil A) i = Raise IndexError.
Proof.
  unfold getitem, py_index. cbn [length].
  rewrite decide_False by lia. rewrite decide_False by lia. done.
Qed.

Lemma setitem_insert {A} (l : list A) (i : Z) (x : A) :
  0 ≤ i < Z.of_nat (length l) → setitem l i x = Ok (<[Z.to_nat i := x]> l).
Proof. intros Hi. unfold setitem. by rewrite py_index_nonneg. Qed.

Lemma getitem2_zcell {A} (t : list (list A)) (i j : Z) (d : A) :
  zcell t i j = Some d → getitem2 t i j = Ok d.
Proof.
  unfold zcell, getitem2. case_decide as Hij; [|done].
  destruct (t !! Z.to_nat i) as [row|] eqn:Hrow; simpl; [|done].
  intros Hd. rewrite (getitem_lookup _ _ row) by (done || lia). simpl.
  apply getitem_lookup; [lia | done].
Qed.

Lemma setitem2_zcell {A} (t : list (list A)) (i j : Z) (x : A) :
  is_Some (zcell t i j) →
  ∃ t', setitem2 t i j x = Ok t' ∧
    ∀ i' j', zcell t' i' j' = if decide (i' = i ∧ j' = j) then Some x else zcell t i' j'.
Proof.
  intros [d Hd]. unfold zcell in Hd. case_decide as Hij; [|done].
  destruct (t !! Z.to_nat i) as [row|] eqn:Hrow; simpl in Hd; [|done].
  pose proof (lookup_lt_Some _ _ _ Hrow) as Hi.
  pose proof (lookup_lt_Some _ _ _ Hd) as Hj.
  exists (<[Z.to_nat i := <[Z.to_nat j := x]> row]> t). split.
  - unfold setitem2. rewrite (getitem_lookup _ _ row) by (done || lia). simpl.
    rewrite setitem_insert by lia. simpl. apply setitem_insert. lia.
  - intros i' j'. unfold zcell.
    destruct (decide (0 ≤ i' ∧ 0 ≤ j')) as [Hij'|Hij'].
    + destruct (decide (i' = i)) as [->|Hne].
      * rewrite list_lookup_insert_eq by done. simpl.
        destruct (decide (j' = j)) as [->|Hne'].
        -- rewrite list_lookup_insert_eq by done. by rewrite decide_True.
        -- rewrite list_lookup_insert_ne by lia.
           rewrite decide_False by (intros [_ ?]; done). by rewrite Hrow.
      * rewrite list_lookup_insert_ne by lia.
        by rewrite decide_False by (intros [? _]; done).
    + rewrite decide_False; [done|]. intros [-> ->]. done.
Qed.

(** ** Loops over a range *)

Lemma range_nil (lo hi : Z) : hi ≤ lo → range lo hi = [].
Proof. intros. unfold range. apply seqZ_nil. lia. Qed.

Lemma range_cons (lo hi : Z) : lo < hi → range lo hi = lo :: range (lo + 1) hi.
Proof.
  intros. unfold range. rewrite seqZ_cons by lia.
  f_equal. f_equal; lia.
Qed.

(** A loop invariant [P k st] ("before the pass for [k]") carried through
    [for k in range(lo, hi)]: no pass raises, and the invariant holds at
    [hi] after the loop. *)
Lemma for_each_range_inv {S} (P : Z → S → Prop) (body : Z → S → result S) (lo hi : Z) (st : S) :
  lo ≤ hi →
  P lo st →
  (∀ k st, lo ≤ k < hi → P k st → ∃ st', body k st = Ok st' ∧ P (k + 1) st') →
  ∃ st', for_each (range lo hi) body st = Ok st' ∧ P hi st'.
Proof.
  intros Hle. remember (Z.to_nat (hi - lo)) as len eqn:Hlen.
  revert lo st Hle Hlen. induction len as [|len IH]; intros lo st Hle Hlen HP Hbody.
  - assert (lo = hi) as -> by lia. rewrite range_nil by lia. by exists st.
  - rewrite range_cons by lia. simpl.
    destruct (Hbody lo st) as (st1 & -> & HP1); [lia | done |]. simpl.
    apply IH; [lia | lia | done |].
    intros k st2 Hk. apply Hbody. lia.
Qed.

(** ** The table built by levenstein_distance *)

Section table.
Context {T : Type} `{EqDecision T}.
Variables s1 s2 : list T.

Local Abbreviation n := (Z.of_nat (length s1)).
Local Abbreviation m := (Z.of_nat (length s2)).

Lemma cell_rule_frame t t' i j :
  cell_rule s1 s2 t i j →
  (∀ i' j', i' ≤ i → j' ≤ j → zcell t' i' j' = zcell t i' j') →
  cell_rule s1 s2 t' i j.
Proof.
  intros Hrule Hsame. destruct Hrule.
  - apply rule_origin. by rewrite Hsame by lia.
  - eapply rule_top; [done | |]; rewrite Hsame by lia; done.
  - eapply rule_left; [done | |]; rewrite Hsame by lia; done.
  - eapply rule_inner; try done; rewrite Hsame by lia; done.
Qed.

(** Writing the cell [(i0, j0)] keeps what was filled before it. *)
Lemma filled_upto_write t t' i0 j0 x :
  0 ≤ i0 ≤ n → 0 ≤ j0 ≤ m →
  filled_upto s1 s2 i0 j0 t →
  (∀ i j, zcell t' i j = if decide (i = i0 ∧ j = j0) then Some x else zcell t i j) →
  cell_rule s1 s2 t' i0 j0 →
  filled_upto s1 s2 i0 (j0 + 1) t'.
Proof.
  intros Hi0 Hj0 [Hdef Hrules] Ht' Hnew. split.
  - intros i j Hi Hj. rewrite Ht'. case_decide; [done | by apply Hdef].
  - intros i j Hi Hj Hbefore.
    destruct (decide (i = i0 ∧ j = j0)) as [[-> ->]|Hne]; [done|].
    assert (before i j i0 j0) as Hb by (unfold before in *; lia).
    apply (cell_rule_frame t); [by apply Hrules|].
    intros i' j' Hi' Hj'. rewrite Ht'.
    rewrite decide_False; [done|]. unfold before in Hb. lia.
Qed.

Lemma filled_upto_next_row t i0 :
  filled_upto s1 s2 i0 (m + 1) t → filled_upto s1 s2 (i0 + 1) 0 t.
Proof.
  intros [Hdef Hrules]. split; [done|].
  intros i j Hi Hj Hb. apply Hrules; [done | done |].
  unfold before in *. lia.
Qed.

Lemma fill_top_step t j :
  1 ≤ j ≤ m →
  filled_upto s1 s2 0 j t →
  ∃ t', fill_top j t = Ok t' ∧ filled_upto s1 s2 0 (j + 1) t'.
Proof.
  intros Hj Hfilled. pose proof Hfilled as [Hdef _].
  destruct (Hdef 0 (j - 1)) as [d Hd]; [lia | lia |].
  unfold fill_top. rewrite (getitem2_zcell _ _ _ _ Hd). cbn [mbind result_bind].
  destruct (setitem2_zcell t 0 j (mkDistance (cost d + INSERT_COST) 0 (j - 1)))
    as (t' & -> & Ht'); [apply Hdef; lia|].
  exists t'. split; [done|].
  eapply filled_upto_write; [lia | lia | done | done |].
  apply (rule_top s1 s2 t' j d); [lia | |].
  - rewrite Ht'. rewrite decide_False by lia. done.
  - rewrite Ht'. by rewrite decide_True.
Qed.

Lemma fill_cell_step t i j :
  1 ≤ i ≤ n → 1 ≤ j ≤ m →
  filled_upto s1 s2 i j t →
  ∃ t', fill_cell s1 s2 i j t = Ok t' ∧ filled_upto s1 s2 i (j + 1) t'.
Proof.
  intros Hi Hj Hfilled. pose proof Hfilled as [Hdef _].
  destruct (lookup_lt_is_Some_2 s1 (Z.to_nat (i - 1))) as [a Ha]; [lia|].
  destruct (lookup_lt_is_Some_2 s2 (Z.to_nat (j - 1))) as [b Hb]; [lia|].
  destruct (Hdef (i - 1) j) as [d_del Hdel]; [lia | lia |].
  destruct (Hdef i (j - 1)) as [d_ins Hins]; [lia | lia |].
  destruct (Hdef (i - 1) (j - 1)) as [d_rep Hrep]; [lia | lia |].
  unfold fill_cell.
  rewrite (getitem_lookup s1 (i - 1) a ltac:(lia) Ha).
  rewrite (getitem_lookup s2 (j - 1) b ltac:(lia) Hb).
  cbn [mbind result_bind].
  set (x := if decide (a ≠ b) then
              py_min cost
                (mkDistance (cost d_del + DELETE_COST) (i - 1) j)
                [mkDistance (cost d_ins + INSERT_COST) i (j - 1);
                 mkDistance (cost d_rep + REPLACE_COST) (i - 1) (j - 1)]
            else mkDistance (cost d_rep) (i - 1) (j - 1)).
  destruct (setitem2_zcell t i j x) as (t' & Hset & Ht'); [apply Hdef; lia|].
  exists t'. split.
  - rewrite <- Hset. subst x. case_decide.
    + rewrite (getitem2_zcell _ _ _ _ Hdel), (getitem2_zcell _ _ _ _ Hins),
        (getitem2_zcell _ _ _ _ Hrep). done.
    + rewrite (getitem2_zcell _ _ _ _ Hrep). done.
  - eapply filled_upto_write; [lia | lia | done | done |].
    apply (rule_inner s1 s2 t' i j a b d_del d_ins d_rep); try done; try lia.
    + rewrite Ht'. rewrite decide_False by lia. done.
    + rewrite Ht'. rewrite decide_False by lia. done.
    + rewrite Ht'. rewrite decide_False by lia. done.
    + rewrite Ht'. by rewrite decide_True.
Qed.

Lemma fill_row_step t i :
  1 ≤ i ≤ n →
  filled_upto s1 s2 i 0 t →
  ∃ t', fill_row s1 s2 m i t = Ok t' ∧ filled_upto s1 s2 (i + 1) 0 t'.
Proof.
  intros Hi Hfilled. pose proof Hfilled as [Hdef _].
  destruct (Hdef (i - 1) 0) as [d Hd]; [lia | lia |].
  unfold fill_row. rewrite (getitem2_zcell _ _ _ _ Hd). cbn [mbind result_bind].
  destruct (setitem2_zcell t i 0 (mkDistance (cost d + DELETE_COST) (i - 1) 0))
    as (t0 & -> & Ht0); [apply Hdef; lia|].
  cbn [mbind result_bind].
  assert (filled_upto s1 s2 i (0 + 1) t0) as Hfilled0.
  { eapply filled_upto_write; [lia | lia | done | done |].
    apply (rule_left s1 s2 t0 i d); [lia | |].
    - rewrite Ht0. rewrite decide_False by lia. done.
    - rewrite Ht0. by rewrite decide_True. }
  destruct (for_each_range_inv (filled_upto s1 s2 i) (fill_cell s1 s2 i) 1 (m + 1) t0)
    as (t' & Hloop & Hfilled'); [lia | done | |].
  { intros j t1 Hj. apply fill_cell_step; lia. }
  exists t'. split; [done|]. by apply filled_upto_next_row.
Qed.

(** [levenstein_distance] raises nothing, and every cell of the table it
    returns obeys [cell_rule]. *)
Lemma levenstein_distance_ok :
  ∃ t, levenstein_distance s1 s2 = Ok t ∧ table_ok s1 s2 t.
Proof.
  unfold levenstein_distance.
  set (t0 := replicate _ _).
  assert (filled_upto s1 s2 0 1 t0) as Hfilled0.
  { assert (∀ i j, 0 ≤ i ≤ n → 0 ≤ j ≤ m → zcell t0 i j = Some (mkDistance 0 (-1) (-1)))
      as Hinit.
    { intros i j Hi Hj. unfold zcell, t0. rewrite decide_True by lia.
      rewrite lookup_replicate_2 by lia. simpl.
      apply lookup_replicate_2. lia. }
    split.
    - intros i j Hi Hj. rewrite Hinit by done. done.
    - intros i j Hi Hj Hb. assert (i = 0 ∧ j = 0) as [-> ->] by (unfold before in Hb; lia).
      apply rule_origin. apply Hinit; lia. }
  destruct (for_each_range_inv (filled_upto s1 s2 0) fill_top 1 (m + 1) t0)
    as (t1 & -> & Hfilled1); [lia | done | |].
  { intros j t Hj. apply fill_top_step. lia. }
  cbn [mbind result_bind].
  apply filled_upto_next_row in Hfilled1.
  destruct (for_each_range_inv (λ i, filled_upto s1 s2 i 0) (fill_row s1 s2 m) 1 (n + 1) t1)
    as (t & Hloop & [Hdef Hrules]); [lia | done | |].
  { intros i t Hi. apply fill_row_step. lia. }
  exists t. split; [done|].
  intros i j Hi Hj. apply Hrules; [done | done |]. unfold before. lia.
Qed.
End table.

(** [min] of three items by cost, spelled out. *)
Lemma py_min_three (x y z : Distance) :
  py_min cost x [y; z] =
    if decide (cost x ≤ cost y ∧ cost x ≤ cost z) then x
    else if decide (cost y ≤ cost z) then y
    else z.
Proof. unfold py_min. simpl. repeat case_decide; done || lia. Qed.

(** ** The walk of edit_path along the back-pointers *)

Section walk.
Variables s1 s2 : list Z.
Variable t : list (list Distance).

Lemma script_nonneg i j ops : script s1 s2 t i j ops → 0 ≤ i ∧ 0 ≤ j.
Proof. induction 1; lia. Qed.

(** Every cell of a finished table starts such a walk. *)
Lemma script_exists i j :
  table_ok s1 s2 t →
  0 ≤ i ≤ Z.of_nat (length s1) → 0 ≤ j ≤ Z.of_nat (length s2) →
  ∃ ops, script s1 s2 t i j ops.
Proof.
  intros Hok. remember (Z.to_nat (i + j)) as k eqn:Hk.
  revert i j Hk. induction (lt_wf k) as [k _ IH]. intros i j -> Hi Hj.
  assert (∀ i' j', 0 ≤ i' ≤ Z.of_nat (length s1) → 0 ≤ j' ≤ Z.of_nat (length s2) →
                   i' + j' < i + j → ∃ ops, script s1 s2 t i' j' ops) as IH'.
  { intros i' j' Hi' Hj' Hlt. apply (IH (Z.to_nat (i' + j'))); [lia | done | done | done]. }
  destruct (Hok i j Hi Hj) as [Horig | j d Hj1 Hd Hcell | i d Hi1 Hd Hcell
                               | i j a b d_del d_ins d_rep Hi1 Hj1 Ha Hb Hdel Hins Hrep Hcell].
  - eexists. by apply script_origin.
  - destruct (IH' 0 (j - 1)) as [ops Hops]; [lia | lia | lia |].
    destruct (lookup_lt_is_Some_2 s2 (Z.to_nat (j - 1))) as [b Hb]; [lia|].
    eexists. eapply script_insert; done || lia.
  - destruct (IH' (i - 1) 0) as [ops Hops]; [lia | lia | lia |].
    eexists. eapply script_delete; done || lia.
  - rewrite py_min_three in Hcell. cbn [cost] in Hcell.
    destruct (decide (a ≠ b)) as [Hab|Hab].
    + repeat case_decide.
      * destruct (IH' (i - 1) j) as [ops Hops]; [lia | lia | lia |].
        eexists. eapply script_delete; done || lia.
      * destruct (IH' i (j - 1)) as [ops Hops]; [lia | lia | lia |].
        eexists. eapply script_insert; done || lia.
      * destruct (IH' (i - 1) (j - 1)) as [ops Hops]; [lia | lia | lia |].
        eexists. eapply script_replace; done || lia.
    + apply dec_stable in Hab as ->.
      destruct (IH' (i - 1) (j - 1)) as [ops Hops]; [lia | lia | lia |].
      eexists. eapply script_match; done || lia.
Qed.
End walk.

Lemma getitem_minus_one {A} (l : list A) :
  getitem l (-1) = match last l with Some x => Ok x | None => Raise IndexError end.
Proof.
  destruct l as [|x l _] using rev_ind.
  - apply getitem_nil.
  - by rewrite getitem_last, last_snoc.
Qed.

Section walk_loop.
Variables s1 s2 : list Z.
Variable t : list (list Distance).

Lemma edit_path_body_delete i j c path :
  0 ≤ i → 0 ≤ j →
  zcell t i j = Some (mkDistance c (i - 1) j) →
  edit_path_body t s1 s2 i j path = Ok (i - 1, j, path ++ [mkOperation DELETE (i - 1) 0]).
Proof.
  intros Hi Hj Hcell. unfold edit_path_body.
  rewrite (getitem2_zcell _ _ _ _ Hcell). cbn [mbind result_bind prev_i prev_j].
  by rewrite decide_True.
Qed.

Lemma edit_path_body_insert i j c b path :
  1 ≤ j →
  zcell t i j = Some (mkDistance c i (j - 1)) →
  s2 !! Z.to_nat (j - 1) = Some b →
  edit_path_body t s1 s2 i j path = Ok (i, j - 1, path ++ [mkOperation INSERT i b]).
Proof.
  intros Hj Hcell Hb. unfold edit_path_body.
  rewrite (getitem2_zcell _ _ _ _ Hcell). cbn [mbind result_bind prev_i prev_j].
  rewrite decide_False by lia. rewrite decide_True by done.
  by rewrite (getitem_lookup s2 (j - 1) b ltac:(lia) Hb).
Qed.

Lemma edit_path_body_diagonal i j c a b path :
  1 ≤ i → 1 ≤ j →
  zcell t i j = Some (mkDistance c (i - 1) (j - 1)) →
  s1 !! Z.to_nat (i - 1) = Some a →
  s2 !! Z.to_nat (j - 1) = Some b →
  edit_path_body t s1 s2 i j path =
    Ok (i - 1, j - 1,
        if decide (a ≠ b) then path ++ [mkOperation REPLACE (i - 1) b] else path).
Proof.
  intros Hi Hj Hcell Ha Hb. unfold edit_path_body.
  rewrite (getitem2_zcell _ _ _ _ Hcell). cbn [mbind result_bind prev_i prev_j].
  rewrite decide_False by lia. rewrite decide_False by lia. rewrite decide_True by done.
  rewrite (getitem_lookup s1 (i - 1) a ltac:(lia) Ha).
  rewrite (getitem_lookup s2 (j - 1) b ltac:(lia) Hb).
  cbn [mbind result_bind]. by case_decide.
Qed.

Lemma edit_path_body_origin path :
  zcell t 0 0 = Some (mkDistance 0 (-1) (-1)) →
  edit_path_body t s1 s2 0 0 path = path' ← origin_pass s1 s2 path; Ok (-1, -1, path').
Proof.
  intros Hcell. unfold edit_path_body, origin_pass.
  rewrite (getitem2_zcell _ _ _ _ Hcell). cbn [mbind result_bind prev_i prev_j].
  rewrite decide_False by lia. rewrite decide_False by lia. rewrite decide_True by done.
  change (0 - 1) with (-1). rewrite !getitem_minus_one.
  destruct (last s1) as [a|]; [|done]. cbn [mbind result_bind].
  destruct (last s2) as [b|]; [|done]. cbn [mbind result_bind].
  by case_decide.
Qed.

Lemma edit_path_loop_unfold fuel i j path :
  0 ≤ i →
  edit_path_loop (S fuel) t s1 s2 i j path =
    match edit_path_body t s1 s2 i j path with
    | Ok (i', j', path') => edit_path_loop fuel t s1 s2 i' j' path'
    | Raise e => Some (Raise e)
    end.
Proof. intros Hi. simpl. rewrite decide_True; [done|]. intros [= ? ?]. lia. Qed.

Lemma edit_path_loop_exit fuel path :
  edit_path_loop fuel t s1 s2 (-1) (-1) path = Some (Ok path).
Proof. by destruct fuel. Qed.

(** From a cell that starts a walk, the loop runs down to [(0, 0)],
    appending the operations of the walk from the last one to the first
    one, and then makes the pass at [(0, 0)]. *)
Lemma edit_path_loop_script i j ops :
  script s1 s2 t i j ops →
  ∀ fuel path, (Z.to_nat (i + j) < fuel)%nat →
    edit_path_loop fuel t s1 s2 i j path = Some (origin_pass s1 s2 (path ++ reverse ops)).
Proof.
  induction 1 as [Horig | i j d' ops Hi Hj Hd' Hcell Hs IH | i j d' b ops Hi Hj Hd' Hcell Hb Hs IH
                  | i j d' a b ops Hi Hj Hd' Hcell Ha Hb Hab Hs IH
                  | i j d' a ops Hi Hj Hd' Hcell Ha Hb Hs IH];
    intros fuel path Hfuel; (destruct fuel as [|fuel]; [lia|]).
  - rewrite edit_path_loop_unfold by lia. rewrite edit_path_body_origin by done.
    rewrite app_nil_r. destruct (origin_pass s1 s2 path) as [path'|e]; [|done].
    apply edit_path_loop_exit.
  - rewrite edit_path_loop_unfold by lia.
    rewrite (edit_path_body_delete i j _ path ltac:(lia) Hj Hcell).
    rewrite IH by lia. by rewrite reverse_snoc, <- app_assoc.
  - rewrite edit_path_loop_unfold by lia.
    rewrite (edit_path_body_insert _ _ _ _ _ Hj Hcell Hb).
    rewrite IH by lia. by rewrite reverse_snoc, <- app_assoc.
  - rewrite edit_path_loop_unfold by lia.
    rewrite (edit_path_body_diagonal _ _ _ _ _ _ Hi Hj Hcell Ha Hb).
    rewrite decide_True by done.
    rewrite IH by lia. by rewrite reverse_snoc, <- app_assoc.
  - rewrite edit_path_loop_unfold by lia.
    rewrite (edit_path_body_diagonal _ _ _ _ _ _ Hi Hj Hcell Ha Hb).
    rewrite decide_False by (intros Hne; by apply Hne).
    by rewrite IH by lia.
Qed.
End walk_loop.

Lemma edit_path_script (s1 s2 : list Z) :
  ∃ t ops,
    levenstein_distance s1 s2 = Ok t ∧ table_ok s1 s2 t ∧
    script s1 s2 t (Z.of_nat (length s1)) (Z.of_nat (length s2)) ops ∧
    ∀ fuel, (length s1 + length s2 < fuel)%nat →
      edit_path fuel s1 s2 = Some (edit_path_result s1 s2 ops).
Proof.
  destruct (levenstein_distance_ok s1 s2) as (t & Ht & Hok).
  destruct (script_exists s1 s2 t (Z.of_nat (length s1)) (Z.of_nat (length s2)))
    as [ops Hops]; [done | lia | lia |].
  exists t, ops. repeat split; [done | done | done |].
  intros fuel Hfuel. unfold edit_path. rewrite Ht.
  rewrite (edit_path_loop_script _ _ _ _ _ _ Hops) by lia.
  unfold origin_pass, edit_path_result. rewrite app_nil_l.
  destruct (last s1) as [a|]; [|done]. destruct (last s2) as [b|]; [|done].
  case_decide.
  - by rewrite reverse_snoc, reverse_involutive.
  - by rewrite reverse_involutive.
Qed.

(** ** What the operations of a walk look like *)

Lemma path_cost_app (ops1 ops2 : list Operation) :
  path_cost (ops1 ++ ops2) = path_cost ops1 + path_cost ops2.
Proof. induction ops1 as [|o ops1 IH]; simpl; lia. Qed.

Section walk_facts.
Variables s1 s2 : list Z.
Variable t : list (list Distance).

(** A DELETE or a REPLACE of the walk from [(i, j)] is located below [i],
    an INSERT at most at [i], and the locations never decrease. *)
Lemma script_locations i j ops :
  script s1 s2 t i j ops →
  by_location ops ∧
  Forall (λ o, 0 ≤ location o ≤ i ∧ (code o ≠ INSERT → location o < i)) ops.
Proof.
  assert (∀ i i' ops, i' ≤ i →
            Forall (λ o, 0 ≤ location o ≤ i' ∧ (code o ≠ INSERT → location o < i')) ops →
            Forall (λ o, 0 ≤ location o ≤ i ∧ (code o ≠ INSERT → location o < i)) ops) as Hweaken.
  { intros i0 i' ops0 Hle Hall. eapply Forall_impl; [exact Hall|].
    intros o [? Hlt]. split; [lia|].
    intros Hc. specialize (Hlt Hc). lia. }
  assert (∀ i' ops op, by_location ops →
            Forall (λ o, 0 ≤ location o ≤ i' ∧ (code o ≠ INSERT → location o < i')) ops →
            i' ≤ location op → by_location (ops ++ [op])) as Hsnoc.
  { intros i' ops0 op Hsorted Hall Hle. apply StronglySorted_app. split_and!.
    - intros o1 o2 Ho1 ->%list_elem_of_singleton.
      rewrite Forall_forall in Hall. apply Hall in Ho1. lia.
    - done.
    - repeat constructor. }
  induction 1 as [Horig | i j d' ops Hi Hj Hd' Hcell Hs [IHs IHb] | i j d' b ops Hi Hj Hd' Hcell Hb Hs [IHs IHb]
                  | i j d' a b ops Hi Hj Hd' Hcell Ha Hb Hab Hs [IHs IHb]
                  | i j d' a ops Hi Hj Hd' Hcell Ha Hb Hs [IHs IHb]].
  - split; constructor.
  - split; [by eapply Hsnoc|]. apply Forall_app. split.
    + by apply (Hweaken i (i - 1)); [lia|].
    + repeat constructor; simpl; lia.
  - pose proof (script_nonneg _ _ _ _ _ _ Hs). split; [by eapply Hsnoc|].
    apply Forall_app. split; [done|]. repeat constructor; simpl; done || lia.
  - split; [by eapply Hsnoc|]. apply Forall_app. split.
    + by apply (Hweaken i (i - 1)); [lia|].
    + repeat constructor; simpl; lia.
  - split; [done|]. by apply (Hweaken i (i - 1)); [lia|].
Qed.

(** The operations of the walk from [(i, j)] cost what the cell [(i, j)]
    records. *)
Lemma script_cost i j ops :
  script s1 s2 t i j ops →
  ∃ d, zcell t i j = Some d ∧ cost d = path_cost ops.
Proof.
  induction 1 as [Horig | i j d' ops Hi Hj Hd' Hcell Hs (d & Hd & IH)
                  | i j d' b ops Hi Hj Hd' Hcell Hb Hs (d & Hd & IH)
                  | i j d' a b ops Hi Hj Hd' Hcell Ha Hb Hab Hs (d & Hd & IH)
                  | i j d' a ops Hi Hj Hd' Hcell Ha Hb Hs (d & Hd & IH)].
  - eexists. split; [done|]. done.
  - eexists. split; [done|]. rewrite path_cost_app. simplify_eq. simpl. unfold op_cost. simpl. lia.
  - eexists. split; [done|]. rewrite path_cost_app. simplify_eq. simpl. unfold op_cost. simpl. lia.
  - eexists. split; [done|]. rewrite path_cost_app. simplify_eq. simpl. unfold op_cost. simpl. lia.
  - eexists. split; [done|]. simplify_eq. simpl. lia.
Qed.

(** The new bytes of the operations are items of [s2], or the 0 of a
    DELETE. *)
Lemma script_new_bytes i j ops :
  Forall (λ x, 0 ≤ x < 256) s2 →
  script s1 s2 t i j ops →
  Forall (λ o, 0 ≤ new_byte o < 256) ops.
Proof.
  intros Hbytes. rewrite Forall_lookup in Hbytes.
  induction 1 as [Horig | i j d' ops Hi Hj Hd' Hcell Hs IH | i j d' b ops Hi Hj Hd' Hcell Hb Hs IH
                  | i j d' a b ops Hi Hj Hd' Hcell Ha Hb Hab Hs IH
                  | i j d' a ops Hi Hj Hd' Hcell Ha Hb Hs IH].
  - constructor.
  - apply Forall_app. split; [done|]. repeat constructor; simpl; lia.
  - apply Forall_app. split; [done|]. repeat constructor; simpl; by eapply Hbytes.
  - apply Forall_app. split; [done|]. repeat constructor; simpl; by eapply Hbytes.
  - done.
Qed.
End walk_facts.

(** ** The replay loop *)

Lemma py_bytes_ok (l : list Z) : Forall (λ x, 0 ≤ x < 256) l → py_bytes l = Ok l.
Proof. intros Hl. unfold py_bytes. by rewrite decide_True. Qed.

Section replay.
Variable old_data : list Z.
Variable edits : list Operation.

Lemma apply_loop_unfold fuel data_i edit_i out :
  data_i < Z.of_nat (length old_data) ∨ edit_i < Z.of_nat (length edits) →
  apply_loop (S fuel) old_data edits data_i edit_i out =
    match apply_body old_data edits data_i edit_i out with
    | Ok (data_i', edit_i', out') => apply_loop fuel old_data edits data_i' edit_i' out'
    | Raise e => Some (Raise e)
    end.
Proof. intros Hcond. simpl. by rewrite decide_True. Qed.

Lemma apply_loop_exit fuel data_i edit_i out :
  Z.of_nat (length old_data) ≤ data_i → Z.of_nat (length edits) ≤ edit_i →
  apply_loop fuel old_data edits data_i edit_i out = Some (Ok out).
Proof. intros Hd He. destruct fuel; simpl; by rewrite decide_False by lia. Qed.

(** The pass that fires the operation at [edit_i]. *)
Lemma apply_body_hit data_i edit_i out edit :
  0 ≤ edit_i →
  edits !! Z.to_nat edit_i = Some edit →
  location edit = data_i →
  0 ≤ new_byte edit < 256 →
  apply_body old_data edits data_i edit_i out =
    Ok (match code edit with
        | REPLACE => (data_i + 1, edit_i + 1, out ++ [new_byte edit])
        | INSERT => (data_i, edit_i + 1, out ++ [new_byte edit])
        | DELETE => (data_i + 1, edit_i + 1, out)
        end).
Proof.
  intros Hi Hedit Hloc Hbyte. unfold apply_body.
  pose proof (lookup_lt_Some _ _ _ Hedit) as Hlt.
  rewrite (decide_True (P := edit_i < Z.of_nat (length edits))) by lia.
  rewrite (getitem_lookup edits edit_i edit Hi Hedit). cbn [mbind result_bind].
  rewrite bool_decide_eq_true_2 by done.
  rewrite py_bytes_ok by (repeat constructor; lia).
  by destruct (code edit).
Qed.

(** The pass that copies [old_data[data_i]]. *)
Lemma apply_body_copy data_i edit_i out x :
  0 ≤ edit_i →
  (∀ edit, edits !! Z.to_nat edit_i = Some edit → location edit ≠ data_i) →
  0 ≤ data_i →
  old_data !! Z.to_nat data_i = Some x →
  0 ≤ x < 256 →
  apply_body old_data edits data_i edit_i out = Ok (data_i + 1, edit_i, out ++ [x]).
Proof.
  intros Hi Hmiss Hd Hx Hbyte. unfold apply_body.
  pose proof (lookup_lt_Some _ _ _ Hx) as Hlt.
  assert ((if decide (edit_i < Z.of_nat (length edits)) then
             e ← getitem edits edit_i; Ok (bool_decide (location e = data_i))
           else Ok false) = Ok false) as ->.
  { case_decide as Hlen; [|done].
    destruct (lookup_lt_is_Some_2 edits (Z.to_nat edit_i)) as [edit Hedit]; [lia|].
    rewrite (getitem_lookup edits edit_i edit Hi Hedit). cbn [mbind result_bind].
    by rewrite bool_decide_eq_false_2 by by apply Hmiss. }
  cbn [mbind result_bind]. rewrite decide_True by lia.
  rewrite (getitem_lookup old_data data_i x Hd Hx). cbn [mbind result_bind].
  by rewrite py_bytes_ok by (repeat constructor; lia).
Qed.

(** The pass that neither fires nor copies leaves everything as it is. *)
Lemma apply_body_stall data_i edit_i out edit :
  0 ≤ edit_i →
  edits !! Z.to_nat edit_i = Some edit →
  location edit ≠ data_i →
  Z.of_nat (length old_data) ≤ data_i →
  apply_body old_data edits data_i edit_i out = Ok (data_i, edit_i, out).
Proof.
  intros Hi Hedit Hloc Hd. unfold apply_body.
  pose proof (lookup_lt_Some _ _ _ Hedit) as Hlt.
  rewrite (decide_True (P := edit_i < Z.of_nat (length edits))) by lia.
  rewrite (getitem_lookup edits edit_i edit Hi Hedit). cbn [mbind result_bind].
  rewrite bool_decide_eq_false_2 by done.
  by rewrite decide_False by lia.
Qed.
End replay.

(** ** Replaying the operations of a walk *)

Section walk_replay.
Variables s1 s2 : list Z.
Variable t : list (list Distance).
Hypothesis s1_bytes : Forall (λ x, 0 ≤ x < 256) s1.
Hypothesis s2_bytes : Forall (λ x, 0 ≤ x < 256) s2.

(** Replaying the operations of the walk from [(i, j)], whatever comes
    after them at locations from [i] on, brings the loop in at most
    [i + len(ops)] passes to the data cursor [i] with the first [j] items
    of [s2] written. *)
Lemma script_replay i j ops :
  script s1 s2 t i j ops →
  ∀ rest, (∀ o, head rest = Some o → i ≤ location o) →
    ∃ k, (k ≤ Z.to_nat i + length ops)%nat ∧
      ∀ fuel, apply_loop (k + fuel) s1 (ops ++ rest) 0 0 [] =
              apply_loop fuel s1 (ops ++ rest)
                i (Z.of_nat (length ops)) (take (Z.to_nat j) s2).
Proof.
  rewrite Forall_lookup in s1_bytes. rewrite Forall_lookup in s2_bytes.
  induction 1 as [Horig | i j d' ops Hi Hj Hd' Hcell Hs IH | i j d' b ops Hi Hj Hd' Hcell Hb Hs IH
                  | i j d' a b ops Hi Hj Hd' Hcell Ha Hb Hab Hs IH
                  | i j d' a ops Hi Hj Hd' Hcell Ha Hb Hs IH];
    intros rest Hrest.
  - exists 0%nat. split; [lia|]. done.
  - set (op := mkOperation DELETE (i - 1) 0).
    destruct (IH (op :: rest)) as (k & Hk & Hrun); [by intros o [= <-]|].
    exists (S k). rewrite length_app. split; [simpl; lia|]. intros fuel.
    rewrite <- app_assoc. simpl app.
    replace (S k + fuel)%nat with (k + S fuel)%nat by lia. rewrite Hrun.
    pose proof (script_nonneg _ _ _ _ _ _ Hs) as [? ?].
    rewrite apply_loop_unfold by (right; rewrite length_app; simpl; lia).
    rewrite (apply_body_hit _ _ _ _ _ op) by
      (lia || done || (by rewrite Nat2Z.id; apply list_lookup_middle)).
    simpl. f_equal; lia.
  - set (op := mkOperation INSERT i b).
    destruct (IH (op :: rest)) as (k & Hk & Hrun); [by intros o [= <-]|].
    exists (S k). rewrite length_app. split; [simpl; lia|]. intros fuel.
    rewrite <- app_assoc. simpl app.
    replace (S k + fuel)%nat with (k + S fuel)%nat by lia. rewrite Hrun.
    rewrite apply_loop_unfold by (right; rewrite length_app; simpl; lia).
    rewrite (apply_body_hit _ _ _ _ _ op) by
      (lia || done || (by rewrite Nat2Z.id; apply list_lookup_middle)
       || (simpl; by eapply s2_bytes)).
    simpl. rewrite <- (take_S_r s2 (Z.to_nat (j - 1)) b Hb).
    f_equal; [lia|]. f_equal. lia.
  - set (op := mkOperation REPLACE (i - 1) b).
    destruct (IH (op :: rest)) as (k & Hk & Hrun); [by intros o [= <-]|].
    exists (S k). rewrite length_app. split; [simpl; lia|]. intros fuel.
    rewrite <- app_assoc. simpl app.
    replace (S k + fuel)%nat with (k + S fuel)%nat by lia. rewrite Hrun.
    rewrite apply_loop_unfold by (right; rewrite length_app; simpl; lia).
    rewrite (apply_body_hit _ _ _ _ _ op) by
      (lia || done || (by rewrite Nat2Z.id; apply list_lookup_middle)
       || (simpl; by eapply s2_bytes)).
    simpl. rewrite <- (take_S_r s2 (Z.to_nat (j - 1)) b Hb).
    f_equal; [lia | lia |]. f_equal. lia.
  - destruct (IH rest) as (k & Hk & Hrun).
    { intros o Ho. apply Hrest in Ho. lia. }
    exists (S k). split; [lia|]. intros fuel.
    replace (S k + fuel)%nat with (k + S fuel)%nat by lia. rewrite Hrun.
    pose proof (lookup_lt_Some _ _ _ Ha).
    rewrite apply_loop_unfold by (left; lia).
    rewrite (apply_body_copy _ _ _ _ _ a); [| lia | | lia | done | by eapply s1_bytes].
    + rewrite <- (take_S_r s2 (Z.to_nat (j - 1)) a Hb).
      f_equal; [lia|]. f_equal. lia.
    + intros edit. rewrite Nat2Z.id, lookup_app_r, Nat.sub_diag by lia.
      rewrite <- head_lookup. intros Hedit%Hrest. lia.
Qed.

(** Replaying all the operations of the walk from
    [(len(s1), len(s2))] writes [s2]. *)
Lemma script_replay_all ops :
  script s1 s2 t (Z.of_nat (length s1)) (Z.of_nat (length s2)) ops →
  ∀ fuel, (length s1 + length ops ≤ fuel)%nat →
    apply_edits fuel s1 ops = Some (Ok s2).
Proof.
  intros Hs fuel Hfuel.
  destruct (script_replay _ _ _ Hs []) as (k & Hk & Hrun); [done|].
  rewrite app_nil_r in Hrun. unfold apply_edits.
  replace fuel with (k + (fuel - k))%nat by lia. rewrite Hrun.
  rewrite apply_loop_exit by lia. by rewrite Nat2Z.id, firstn_all.
Qed.
End walk_replay.

(** ** The record codec *)

Lemma le_bytes_range (x : Z) : Forall (λ b, 0 ≤ b < 256) (le_bytes x).
Proof. unfold le_bytes. repeat constructor; apply Z.mod_pos_bound; lia. Qed.

Lemma le_bytes_value (x : Z) :
  0 ≤ x < 2 ^ 32 →
  x `mod` 256 + 256 * ((x / 256) `mod` 256) + 65536 * ((x / 65536) `mod` 256)
    + 16777216 * ((x / 16777216) `mod` 256) = x.
Proof. intros Hx. Z.div_mod_to_equations. lia. Qed.

Lemma OpCode_of_value (c : OpCode) : OpCode_of (OpCode_value c) = Ok c.
Proof. by destruct c. Qed.

Lemma OpCode_of_Ok (x : Z) (c : OpCode) : OpCode_of x = Ok c → x = OpCode_value c.
Proof. unfold OpCode_of. repeat case_decide; intros [= <-]; done. Qed.

Lemma OpCode_of_cases (x : Z) :
  (0 ≤ x ≤ 2 ∧ ∃ c, OpCode_of x = Ok c) ∨ (¬ 0 ≤ x ≤ 2 ∧ OpCode_of x = Raise ValueError).
Proof.
  unfold OpCode_of. repeat case_decide; try (left; split; [lia | by eexists]).
  right. split; [lia | done].
Qed.

(** The six bytes of a record that holds [o]. *)
Lemma encode_edit_fits (order : byteorder) (o : Operation) :
  fits_record o →
  ∃ b0 b1 b2 b3,
    encode_edit order o = Ok [OpCode_value (code o); b0; b1; b2; b3; new_byte o] ∧
    struct_unpack_I order [b0; b1; b2; b3] = Ok (location o).
Proof.
  intros [Hloc Hbyte]. unfold encode_edit, struct_pack_I.
  rewrite decide_True by done. cbn [mbind result_bind].
  pose proof (le_bytes_range (location o)) as Hrange.
  pose proof (le_bytes_value (location o) Hloc) as Hvalue.
  assert (0 ≤ OpCode_value (code o) < 256) by (destruct (code o); simpl; lia).
  unfold le_bytes in *. destruct order; cbn [reverse rev_append app].
  - do 4 eexists. split.
    + apply py_bytes_ok. constructor; [done|].
      decompose_Forall_hyps. repeat constructor; lia.
    + simpl. f_equal. lia.
  - do 4 eexists. split.
    + apply py_bytes_ok. constructor; [done|].
      decompose_Forall_hyps. repeat constructor; lia.
    + simpl. f_equal. lia.
Qed.

Lemma decode_edit_record (order : byteorder) (x b0 b1 b2 b3 y : Z) :
  decode_edit order [x; b0; b1; b2; b3; y] =
    c ← OpCode_of x; l ← struct_unpack_I order [b0; b1; b2; b3]; Ok (mkOperation c l y).
Proof.
  unfold decode_edit.
  change (getitem [x; b0; b1; b2; b3; y] 0) with (Ok x).
  change (getitem [x; b0; b1; b2; b3; y] 5) with (Ok y).
  change (slice [x; b0; b1; b2; b3; y] 1 5) with [b0; b1; b2; b3].
  cbn [mbind result_bind]. destruct (OpCode_of x); [|done]. cbn [mbind result_bind].
  by destruct (struct_unpack_I order [b0; b1; b2; b3]).
Qed.

Lemma decode_encode_edit (order : byteorder) (o : Operation) :
  fits_record o →
  ∃ r, encode_edit order o = Ok r ∧ length r = 6%nat ∧ decode_edit order r = Ok o.
Proof.
  intros Hfits. destruct (encode_edit_fits order o Hfits) as (b0 & b1 & b2 & b3 & Henc & Hun).
  eexists. split; [done|]. split; [done|].
  rewrite decode_edit_record, OpCode_of_value. cbn [mbind result_bind].
  rewrite Hun. cbn [mbind result_bind]. by destruct o.
Qed.

(** The loop of [calculate_diff] appends the records one after the
    other. *)
Lemma write_edits_acc (order : byteorder) (edits : list Operation) (f : list Z) :
  for_each edits (λ edit f, r ← encode_edit order edit; Ok (f ++ r)) f =
    rs ← write_edits order edits; Ok (f ++ rs).
Proof.
  unfold write_edits. revert f. induction edits as [|o edits IH]; intros f.
  - simpl. by rewrite app_nil_r.
  - simpl. destruct (encode_edit order o) as [r|e]; [|done]. cbn [mbind result_bind].
    rewrite (IH (f ++ r)), (IH r).
    destruct (for_each edits _ []) as [rs|e]; [|done]. cbn [mbind result_bind].
    by rewrite app_assoc.
Qed.

Lemma write_edits_cons (order : byteorder) (o : Operation) (edits : list Operation) :
  write_edits order (o :: edits) =
    r ← encode_edit order o; rs ← write_edits order edits; Ok (r ++ rs).
Proof.
  unfold write_edits at 1. simpl.
  destruct (encode_edit order o) as [r|e]; [|done]. cbn [mbind result_bind].
  by rewrite write_edits_acc.
Qed.

(** ** Reading the patch file in batches of six bytes *)

Lemma file_iter_from_enough (r1 r2 : nat) (file : list Z) (batch_size : nat) (exact_batch : bool) :
  (0 < batch_size)%nat → (length file ≤ r1)%nat → (length file ≤ r2)%nat →
  file_iter_from r1 file batch_size exact_batch = file_iter_from r2 file batch_size exact_batch.
Proof.
  intros Hbatch. destruct batch_size as [|batch_size]; [lia|]. clear Hbatch.
  revert r2 file. induction r1 as [|r1 IH]; intros r2 file Hr1 Hr2.
  - destruct file; [|simpl in Hr1; lia]. by destruct r2.
  - destruct file as [|x file]; [by destruct r2|].
    destruct r2 as [|r2]; [simpl in Hr2; lia|].
    cbn [file_iter_from take]. destruct (_ && _); [done|].
    f_equal. cbn [drop]. simpl in Hr1, Hr2.
    apply IH; rewrite length_drop; lia.
Qed.

Lemma file_iter_from_more (reads : nat) (file : list Z) (batch_size : nat) (exact_batch : bool) :
  (0 < batch_size)%nat → (length file ≤ reads)%nat →
  file_iter_from reads file batch_size exact_batch = file_iter file batch_size exact_batch.
Proof. intros Hbatch Hreads. by apply file_iter_from_enough. Qed.

Lemma file_iter_nil : file_iter [] 6 true = Stop.
Proof. done. Qed.

Lemma file_iter_short (file : list Z) :
  (0 < length file < 6)%nat → file_iter file 6 true = Throw AssertionError.
Proof.
  intros Hlen. unfold file_iter.
  destruct file as [|x file]; [simpl in Hlen; lia|].
  cbn [length file_iter_from]. rewrite take_ge by lia.
  cbn [length andb]. rewrite bool_decide_eq_false_2 by (simpl in Hlen; lia). done.
Qed.

Lemma file_iter_record (r rest : list Z) :
  length r = 6%nat → file_iter (r ++ rest) 6 true = Yield r (file_iter rest 6 true).
Proof.
  intros Hr. unfold file_iter. rewrite length_app, Hr.
  change (6 + length rest)%nat with (S (5 + length rest)).
  assert (length rest ≤ 5 + length rest)%nat as Hreads by lia.
  revert Hreads. generalize (5 + length rest)%nat. intros reads Hreads.
  cbn [file_iter_from].
  rewrite (take_app_length' r rest 6 (eq_sym Hr)), (drop_app_length' r rest 6 (eq_sym Hr)).
  destruct r as [|x r]; [done|].
  rewrite Hr, bool_decide_eq_true_2 by done. cbn [andb negb]. f_equal.
  by apply file_iter_from_more; [lia|].
Qed.

(** [read_edits] on a file that starts with a whole record. *)
Lemma read_edits_record (order : byteorder) (r rest : list Z) :
  length r = 6%nat →
  read_edits order (r ++ rest) =
    o ← decode_edit order r; ops ← read_edits order rest; Ok (o :: ops).
Proof. intros Hr. unfold read_edits. by rewrite file_iter_record. Qed.

Lemma read_write_edits (order : byteorder) (edits : list Operation) :
  Forall fits_record edits →
  ∃ f, write_edits order edits = Ok f ∧
       length f = (6 * length edits)%nat ∧
       read_edits order f = Ok edits.
Proof.
  induction 1 as [|o edits Ho _ (f & Hf & Hlen & Hread)].
  - by exists [].
  - destruct (decode_encode_edit order o Ho) as (r & Hr & Hlenr & Hdec).
    exists (r ++ f). rewrite write_edits_cons, Hr, Hf. split; [done|].
    split; [rewrite length_app; simpl; lia|].
    by rewrite read_edits_record, Hdec, Hread.
Qed.

(** ** More fuel changes no answer *)

Lemma edit_path_loop_more_fuel (t : list (list Distance)) (s1 s2 : list Z)
    (fuel fuel' : nat) (i j : Z) (path : list Operation) (r : result (list Operation)) :
  (fuel ≤ fuel')%nat →
  edit_path_loop fuel t s1 s2 i j path = Some r →
  edit_path_loop fuel' t s1 s2 i j path = Some r.
Proof.
  revert fuel' i j path. induction fuel as [|fuel IH]; intros fuel' i j path Hle.
  - simpl. case_decide as Hij; [done|]. intros Hr.
    destruct fuel'; simpl; by rewrite decide_False by (by intros ?).
  - destruct fuel' as [|fuel']; [lia|]. simpl. case_decide; [|done].
    destruct (edit_path_body t s1 s2 i j path) as [[[i' j'] path']|e]; [|done].
    apply IH. lia.
Qed.

Lemma edit_path_more_fuel (s1 s2 : list Z) (fuel fuel' : nat) (r : result (list Operation)) :
  (fuel ≤ fuel')%nat →
  edit_path fuel s1 s2 = Some r →
  edit_path fuel' s1 s2 = Some r.
Proof.
  intros Hle. unfold edit_path.
  destruct (levenstein_distance s1 s2) as [t|e]; [|done].
  destruct (edit_path_loop fuel t s1 s2 _ _ []) as [r0|] eqn:Hloop; [|by intros].
  by rewrite (edit_path_loop_more_fuel _ _ _ _ _ _ _ _ _ Hle Hloop).
Qed.

(** Whatever the fuel, an answer of [edit_path] is the one that
    [edit_path_result] describes. *)
Lemma edit_path_answer (s1 s2 : list Z) (fuel : nat) (r : result (list Operation)) :
  edit_path fuel s1 s2 = Some r →
  ∃ t ops,
    levenstein_distance s1 s2 = Ok t ∧ table_ok s1 s2 t ∧
    script s1 s2 t (Z.of_nat (length s1)) (Z.of_nat (length s2)) ops ∧
    r = edit_path_result s1 s2 ops.
Proof.
  intros Hr. destruct (edit_path_script s1 s2) as (t & ops & Ht & Hok & Hops & Hrun).
  exists t, ops. repeat split; [done | done | done |].
  apply (edit_path_more_fuel _ _ _ (fuel `max` S (length s1 + length s2))) in Hr; [|lia].
  rewrite Hrun in Hr by lia. congruence.
Qed.

Lemma apply_loop_more_fuel (old_data : list Z) (edits : list Operation)
    (fuel fuel' : nat) (data_i edit_i : Z) (out : list Z) (r : result (list Z)) :
  (fuel ≤ fuel')%nat →
  apply_loop fuel old_data edits data_i edit_i out = Some r →
  apply_loop fuel' old_data edits data_i edit_i out = Some r.
Proof.
  revert fuel' data_i edit_i out. induction fuel as [|fuel IH]; intros fuel' data_i edit_i out Hle.
  - simpl. case_decide as Hcond; [done|]. intros Hr.
    destruct fuel'; simpl; by rewrite decide_False.
  - destruct fuel' as [|fuel']; [lia|]. simpl. case_decide; [|done].
    destruct (apply_body old_data edits data_i edit_i out) as [[[d' e'] out']|e]; [|done].
    apply IH. lia.
Qed.

(** ** The replay loop ends or stalls *)

Section replay_outcome.
Variable old_data : list Z.
Variable edits : list Operation.

Lemma apply_loop_dangling fuel data_i edit_i out :
  dangling old_data edits data_i edit_i →
  apply_loop fuel old_data edits data_i edit_i out = None.
Proof.
  intros (Hd & Hi & edit & Hedit & Hloc).
  pose proof (lookup_lt_Some _ _ _ Hedit) as Hlt.
  induction fuel as [|fuel IH].
  - simpl. rewrite decide_True by lia. done.
  - rewrite apply_loop_unfold by lia.
    by rewrite (apply_body_stall _ _ _ _ _ edit Hi Hedit Hloc Hd).
Qed.

(** What a pass of the loop does to the two cursors. *)
Lemma apply_body_progress data_i edit_i out :
  0 ≤ edit_i →
  data_i < Z.of_nat (length old_data) ∨ edit_i < Z.of_nat (length edits) →
  dangling old_data edits data_i edit_i ∨
  (∃ e, apply_body old_data edits data_i edit_i out = Raise e) ∨
  (∃ data_i' edit_i' out',
     apply_body old_data edits data_i edit_i out = Ok (data_i', edit_i', out') ∧
     data_i ≤ data_i' ∧ edit_i ≤ edit_i' ∧
     (Z.to_nat (Z.of_nat (length old_data) - data_i') +
      Z.to_nat (Z.of_nat (length edits) - edit_i') <
      Z.to_nat (Z.of_nat (length old_data) - data_i) +
      Z.to_nat (Z.of_nat (length edits) - edit_i))%nat).
Proof.
  intros Hi Hcond. unfold apply_body.
  destruct (decide (edit_i < Z.of_nat (length edits))) as [Hlt|Hge].
  - destruct (lookup_lt_is_Some_2 edits (Z.to_nat edit_i)) as [edit Hedit]; [lia|].
    rewrite (getitem_lookup edits edit_i edit Hi Hedit). cbn [mbind result_bind].
    destruct (decide (location edit = data_i)) as [Hloc|Hloc].
    + rewrite bool_decide_eq_true_2 by done. right.
      destruct (code edit); cbn [mbind result_bind];
        try (destruct (py_bytes [new_byte edit]) as [w|e]; cbn [mbind result_bind];
             [|left; by eexists]);
        right; do 3 eexists; (split; [done|]); cbn [fst snd]; lia.
    + rewrite bool_decide_eq_false_2 by done.
      destruct (decide (data_i < Z.of_nat (length old_data))) as [Hd|Hd].
      * right.
        destruct (getitem old_data data_i) as [x|e]; cbn [mbind result_bind]; [|left; by eexists].
        destruct (py_bytes [x]) as [w|e]; cbn [mbind result_bind]; [|left; by eexists].
        right. do 3 eexists. split; [done|]. lia.
      * left. split; [lia|]. split; [done|]. by exists edit.
  - cbn [mbind result_bind]. rewrite decide_True by lia. right.
    destruct (getitem old_data data_i) as [x|e]; cbn [mbind result_bind]; [|left; by eexists].
    destruct (py_bytes [x]) as [w|e]; cbn [mbind result_bind]; [|left; by eexists].
    right. do 3 eexists. split; [done|]. lia.
Qed.

(** From any state the loop either ends, within as many passes as there
    are original bytes and operations left, or reaches a dangling
    operation and never ends. *)
Lemma apply_loop_outcome data_i edit_i out :
  0 ≤ edit_i →
  (∃ r, ∀ fuel,
     (Z.to_nat (Z.of_nat (length old_data) - data_i) +
      Z.to_nat (Z.of_nat (length edits) - edit_i) ≤ fuel)%nat →
     apply_loop fuel old_data edits data_i edit_i out = Some r) ∨
  ((∃ k data_i' edit_i' out',
      dangling old_data edits data_i' edit_i' ∧
      ∀ fuel, apply_loop (k + fuel) old_data edits data_i edit_i out =
              apply_loop fuel old_data edits data_i' edit_i' out') ∧
   ∀ fuel, apply_loop fuel old_data edits data_i edit_i out = None).
Proof.
  remember (Z.to_nat (Z.of_nat (length old_data) - data_i) +
            Z.to_nat (Z.of_nat (length edits) - edit_i))%nat as mu eqn:Hmu.
  revert data_i edit_i out Hmu. induction (lt_wf mu) as [mu _ IH].
  intros data_i edit_i out -> Hi.
  destruct (decide (data_i < Z.of_nat (length old_data) ∨ edit_i < Z.of_nat (length edits)))
    as [Hcond|Hcond].
  - destruct (apply_body_progress data_i edit_i out Hi Hcond)
      as [Hdang | [[e He] | (d' & e' & out' & Hbody & Hd' & He' & Hless)]].
    + right. split; [|intros fuel; by apply apply_loop_dangling].
      by exists 0%nat, data_i, edit_i, out.
    + left. exists (Raise e). intros [|fuel] Hfuel; [lia|].
      rewrite apply_loop_unfold by done. by rewrite He.
    + destruct (IH _ Hless d' e' out' eq_refl ltac:(lia))
        as [[r Hr] | [(k & d2 & e2 & out2 & Hdang & Hreach) Hnone]].
      * left. exists r. intros [|fuel] Hfuel; [lia|].
        rewrite apply_loop_unfold by done. rewrite Hbody. apply Hr. lia.
      * right. split.
        -- exists (S k), d2, e2, out2. split; [done|]. intros fuel.
           change (S k + fuel)%nat with (S (k + fuel)).
           rewrite apply_loop_unfold by done. rewrite Hbody. apply Hreach.
        -- intros [|fuel].
           ++ simpl. by rewrite decide_True.
           ++ rewrite apply_loop_unfold by done. rewrite Hbody. apply Hnone.
  - left. exists (Ok out). intros fuel _.
    destruct fuel; simpl; by rewrite decide_False.
Qed.
End replay_outcome.

(** ** When reading the patch file fails *)

Lemma unknown_tag_record (x b0 b1 b2 b3 y : Z) (rest : list Z) :
  unknown_tag ([x; b0; b1; b2; b3; y] ++ rest) ↔ (x ≠ 0 ∧ x ≠ 1 ∧ x ≠ 2) ∨ unknown_tag rest.
Proof.
  split.
  - intros (k & z & Hlen & Hz & Hbad). destruct k as [|k].
    + left. simpl in Hz. by simplify_eq.
    + right. exists k, z. cbn [app length] in Hlen. split; [lia|]. split; [|done].
      rewrite <- Hz. replace (6 * S k)%nat with (6 + 6 * k)%nat by lia. done.
  - intros [Hbad | (k & z & Hlen & Hz & Hbad)].
    + exists 0%nat, x. cbn [app length]. split; [lia|]. done.
    + exists (S k), z. cbn [app length]. split; [lia|]. split; [|done].
      rewrite <- Hz. replace (6 * S k)%nat with (6 + 6 * k)%nat by lia. done.
Qed.

Lemma struct_unpack_I_four (order : byteorder) (b0 b1 b2 b3 : Z) :
  ∃ l, struct_unpack_I order [b0; b1; b2; b3] = Ok l.
Proof. by eexists. Qed.

(** The answer of [read_edits]: the operations of a file made of whole
    records with known tags; AssertionError only for a file whose length is
    no multiple of 6; ValueError only for a file with an unknown tag. *)
Lemma read_edits_outcome (order : byteorder) (f : list Z) :
  match read_edits order f with
  | Ok ops => length f = (6 * length ops)%nat ∧ ¬ unknown_tag f
  | Raise AssertionError => Z.of_nat (length f) `mod` 6 ≠ 0
  | Raise ValueError => unknown_tag f
  | Raise _ => False
  end.
Proof.
  remember (length f) as len eqn:Hlen. revert f Hlen.
  induction (lt_wf len) as [len _ IH]. intros f ->.
  destruct (decide (length f = 0%nat)) as [Hnil|Hnonnil].
  { apply length_zero_iff_nil in Hnil as ->. cbn. split; [done|].
    intros (k & z & Hk & _). simpl in Hk. lia. }
  destruct (decide (length f < 6)%nat) as [Hshort|Hlong].
  { unfold read_edits. rewrite file_iter_short by lia. cbn.
    rewrite Z.mod_small by lia. lia. }
  assert (∃ r rest, f = r ++ rest ∧ length r = 6%nat) as (r & rest & -> & Hr).
  { exists (take 6 f), (drop 6 f). split; [by rewrite take_drop | rewrite length_take; lia]. }
  rewrite (read_edits_record order _ _ Hr).
  specialize (IH (length rest) ltac:(rewrite length_app; lia) rest eq_refl).
  destruct r as [|x [|b0 [|b1 [|b2 [|b3 [|y [|]]]]]]]; try done.
  rewrite decode_edit_record.
  destruct (OpCode_of_cases x) as [[Hx [c ->]] | [Hx ->]]; cbn [mbind result_bind].
  - destruct (struct_unpack_I_four order b0 b1 b2 b3) as [l ->]. cbn [mbind result_bind].
    destruct (read_edits order rest) as [ops|e]; cbn [mbind result_bind].
    + destruct IH as [IHlen IHtag]. split.
      * rewrite length_app, IHlen. simpl. lia.
      * rewrite unknown_tag_record. intros [?|?]; [lia | done].
    + destruct e; try done.
      * apply unknown_tag_record. by right.
      * rewrite length_app. cbn [length].
        replace (Z.of_nat (6 + length rest)) with (Z.of_nat (length rest) + 1 * 6) by lia.
        by rewrite Z.mod_add by lia.
  - apply unknown_tag_record. left. lia.
Qed.

(** * The properties of the specification *)

Lemma edit_path_of_script (s1 s2 : list Z) (t : list (list Distance)) (ops : list Operation) :
  levenstein_distance s1 s2 = Ok t →
  script s1 s2 t (Z.of_nat (length s1)) (Z.of_nat (length s2)) ops →
  ∀ fuel, (length s1 + length s2 < fuel)%nat →
    edit_path fuel s1 s2 = Some (edit_path_result s1 s2 ops).
Proof.
  intros Ht Hops fuel Hfuel. unfold edit_path. rewrite Ht.
  rewrite (edit_path_loop_script _ _ _ _ _ _ Hops) by lia.
  unfold origin_pass, edit_path_result. rewrite app_nil_l.
  destruct (last s1) as [a|]; [|done]. destruct (last s2) as [b|]; [|done].
  case_decide.
  - by rewrite reverse_snoc, reverse_involutive.
  - by rewrite reverse_involutive.
Qed.

(** C6. In the table returned by [levenstein_distance], a cell [(i, j)]
    with [i, j >= 1] and [s1[i-1] != s2[j-1]] holds the least of the three
    costs delete [(i-1, j) + 3], insert [(i, j-1) + 3] and replace
    [(i-1, j-1) + 2], with the back-pointer of the move that gives it; when
    costs are equal, delete wins over insert and replace, and insert wins
    over replace. *)
Theorem tie_break_order {T : Type} `{EqDecision T} (s1 s2 : list T) (i j : Z) (a b : T) :
  1 ≤ i ≤ Z.of_nat (length s1) →
  1 ≤ j ≤ Z.of_nat (length s2) →
  getitem s1 (i - 1) = Ok a →
  getitem s2 (j - 1) = Ok b →
  a ≠ b →
  ∃ t d_del d_ins d_rep d,
    levenstein_distance s1 s2 = Ok t ∧
    getitem2 t (i - 1) j = Ok d_del ∧
    getitem2 t i (j - 1) = Ok d_ins ∧
    getitem2 t (i - 1) (j - 1) = Ok d_rep ∧
    getitem2 t i j = Ok d ∧
    cost d = Z.min (cost d_del + 3) (Z.min (cost d_ins + 3) (cost d_rep + 2)) ∧
    (cost d_del + 3 ≤ cost d_ins + 3 → cost d_del + 3 ≤ cost d_rep + 2 →
       d = mkDistance (cost d_del + 3) (i - 1) j) ∧
    (cost d_ins + 3 < cost d_del + 3 → cost d_ins + 3 ≤ cost d_rep + 2 →
       d = mkDistance (cost d_ins + 3) i (j - 1)) ∧
    (cost d_rep + 2 < cost d_del + 3 → cost d_rep + 2 < cost d_ins + 3 →
       d = mkDistance (cost d_rep + 2) (i - 1) (j - 1)).
Proof.
  intros Hi Hj Ha Hb Hab.
  destruct (levenstein_distance_ok s1 s2) as (t & Ht & Hok).
  destruct (Hok i j ltac:(lia) ltac:(lia))
    as [Horig | j d Hj1 Hd Hcell | i d Hi1 Hd Hcell
        | i j a' b' d_del d_ins d_rep Hi1 Hj1 Ha' Hb' Hdel Hins Hrep Hcell]; try lia.
  rewrite (getitem_lookup s1 (i - 1) a' ltac:(lia) Ha') in Ha.
  rewrite (getitem_lookup s2 (j - 1) b' ltac:(lia) Hb') in Hb.
  simplify_eq. rewrite decide_True in Hcell by done.
  rewrite py_min_three in Hcell. cbn [cost] in Hcell.
  unfold DELETE_COST, INSERT_COST, REPLACE_COST in Hcell.
  eexists t, d_del, d_ins, d_rep, _.
  split; [done|]. repeat (split; [by apply getitem2_zcell|]).
  repeat case_decide; cbn [cost]; (split; [lia|]); split_and!; intros; (done || lia).
Qed.

Lemma tie_break_order_witness :
  ∃ t d, levenstein_distance [97] [98] = Ok t ∧ getitem2 t 1 1 = Ok d ∧
         d = mkDistance 2 0 0.
Proof.
  destruct (tie_break_order [97] [98] 1 1 97 98)
    as (t & d_del & d_ins & d_rep & d & Ht & Hdel & Hins & Hrep & Hd & _ & _ & _ & Hreplace);
    [simpl; lia | simpl; lia | reflexivity | reflexivity | discriminate |].
  exists t, d. split; [exact Ht|]. split; [exact Hd|].
  vm_compute in Ht. injection Ht as <-.
  vm_compute in Hdel. injection Hdel as <-.
  vm_compute in Hins. injection Hins as <-.
  vm_compute in Hrep. injection Hrep as <-.
  apply Hreplace; simpl; lia.
Defined.

(** C9. The operations that [edit_path] returns are listed by
    non-decreasing location. *)
Theorem edit_path_by_location (s1 s2 : list Z) (fuel : nat) (ops : list Operation) :
  edit_path fuel s1 s2 = Some (Ok ops) →
  by_location ops.
Proof.
  intros Hrun. apply edit_path_answer in Hrun as (t & ops' & Ht & Hok & Hops & Hres).
  destruct (script_locations _ _ _ _ _ _ Hops) as [Hsorted Hbounds].
  unfold edit_path_result in Hres.
  destruct (last s1) as [a|]; [|done]. destruct (last s2) as [b|]; [|done].
  case_decide; simplify_eq; [|done].
  apply StronglySorted_cons. split; [|done].
  eapply Forall_impl; [exact Hbounds|]. simpl. intros o [? _]. lia.
Qed.

Lemma edit_path_by_location_witness :
  edit_path 10 [97; 98; 99; 100] [98; 120; 100; 101] =
    Some (Ok [mkOperation REPLACE (-1) 101; mkOperation DELETE 0 0;
              mkOperation REPLACE 2 120; mkOperation INSERT 4 101]) ∧
  by_location [mkOperation REPLACE (-1) 101; mkOperation DELETE 0 0;
               mkOperation REPLACE 2 120; mkOperation INSERT 4 101].
Proof.
  split; [vm_compute; reflexivity|].
  apply (edit_path_by_location [97; 98; 99; 100] [98; 120; 100; 101] 10).
  vm_compute. reflexivity.
Defined.

(** C3. Writing a list of operations that fit a record, one 6-byte record
    per operation in the order of the list, and reading the file back
    gives the same list; this holds for either byte order of the
    machine. *)
Theorem codec_round_trip (order : byteorder) (edits : list Operation) :
  Forall fits_record edits →
  ∃ f, write_edits order edits = Ok f ∧
       length f = (6 * length edits)%nat ∧
       read_edits order f = Ok edits.
Proof. apply read_write_edits. Qed.

Lemma codec_round_trip_witness :
  Forall fits_record [mkOperation INSERT 1 98; mkOperation DELETE 70000 0;
                      mkOperation REPLACE 4294967295 255] ∧
  ∃ f, write_edits big [mkOperation INSERT 1 98; mkOperation DELETE 70000 0;
                        mkOperation REPLACE 4294967295 255] = Ok f ∧
       length f = (6 * 3)%nat ∧
       read_edits big f = Ok [mkOperation INSERT 1 98; mkOperation DELETE 70000 0;
                              mkOperation REPLACE 4294967295 255].
Proof.
  assert (Forall fits_record [mkOperation INSERT 1 98; mkOperation DELETE 70000 0;
                              mkOperation REPLACE 4294967295 255]) as Hfits.
  { repeat constructor; simpl; lia. }
  split; [exact Hfits|].
  exact (codec_round_trip big _ Hfits).
Defined.

(** C4. Reading a patch file raises when the length of the file is no
    multiple of 6 (AssertionError, from the assert of [file_iter]) and when
    a record starts with a byte other than 0, 1 and 2 (ValueError, from
    [OpCode]); on every other file it returns a list of operations. *)
Theorem read_edits_malformed (order : byteorder) (f : list Z) :
  (Z.of_nat (length f) `mod` 6 ≠ 0 ∨ unknown_tag f →
     read_edits order f = Raise AssertionError ∨ read_edits order f = Raise ValueError) ∧
  (¬ (Z.of_nat (length f) `mod` 6 ≠ 0 ∨ unknown_tag f) →
     ∃ ops, read_edits order f = Ok ops).
Proof.
  pose proof (read_edits_outcome order f) as Hout.
  destruct (read_edits order f) as [ops|e].
  - destruct Hout as [Hlen Htag]. split; [|by eexists].
    intros [Hmod|Hbad]; [|done]. exfalso. apply Hmod.
    rewrite Hlen. replace (Z.of_nat (6 * length ops)) with (0 + Z.of_nat (length ops) * 6) by lia.
    by rewrite Z.mod_add by lia.
  - destruct e; try done.
    + split; [by right|]. intros Hgood. exfalso. apply Hgood. by right.
    + split; [by left|]. intros Hgood. exfalso. apply Hgood. by left.
Qed.

Lemma read_edits_malformed_witness :
  (read_edits little [0; 1; 0; 0; 0; 65; 7] = Raise AssertionError ∨
   read_edits little [0; 1; 0; 0; 0; 65; 7] = Raise ValueError) ∧
  (read_edits little [3; 1; 0; 0; 0; 65] = Raise AssertionError ∨
   read_edits little [3; 1; 0; 0; 0; 65] = Raise ValueError) ∧
  ∃ ops, read_edits little [0; 1; 0; 0; 0; 65] = Ok ops.
Proof.
  split; [|split].
  - apply (read_edits_malformed little [0; 1; 0; 0; 0; 65; 7]).
    left. vm_compute. discriminate.
  - apply (read_edits_malformed little [3; 1; 0; 0; 0; 65]).
    right. exists 0%nat, 3. simpl. split; [lia|]. split; [reflexivity|]. lia.
  - apply (read_edits_malformed little [0; 1; 0; 0; 0; 65]).
    intros [Hmod | (k & x & Hlen & Hx & Hbad)].
    + apply Hmod. vm_compute. reflexivity.
    + simpl in Hlen. assert (k = 0%nat) as -> by lia.
      simpl in Hx. injection Hx as <-. lia.
Defined.

(** C5, as the code has it.  The replay loop has no guard: it ends, within
    [len(old_data) + len(edits)] passes, or it arrives with no original
    byte left at an operation located elsewhere than at the data cursor;
    from there every pass leaves the state as it is, so the loop never ends
    and nothing is reported. *)
Theorem apply_edits_ends_or_stalls (old_data : list Z) (edits : list Operation) :
  (∃ r, ∀ fuel, (length old_data + length edits ≤ fuel)%nat →
          apply_edits fuel old_data edits = Some r) ∨
  ((∃ k data_i edit_i out,
      dangling old_data edits data_i edit_i ∧
      (∀ fuel, apply_edits (k + fuel) old_data edits =
               apply_loop fuel old_data edits data_i edit_i out) ∧
      apply_body old_data edits data_i edit_i out = Ok (data_i, edit_i, out)) ∧
   ∀ fuel, apply_edits fuel old_data edits = None).
Proof.
  unfold apply_edits.
  destruct (apply_loop_outcome old_data edits 0 0 [] ltac:(lia))
    as [[r Hr] | [(k & d & e & out & Hdang & Hreach) Hnone]].
  - left. exists r. intros fuel Hfuel. apply Hr. lia.
  - right. split; [|done]. exists k, d, e, out. split; [done|]. split; [done|].
    destruct Hdang as (Hd & He & edit & Hedit & Hloc).
    by apply (apply_body_stall _ _ _ _ _ edit).
Qed.

(** C5, a patch that makes the loop run forever: one INSERT at location 1
    for an empty old file.  No amount of fuel gives an answer, be it an
    output or an exception. *)
Lemma apply_patch_dangling_insert :
  ¬ ∃ fuel r, apply_patch little fuel [] [0; 1; 0; 0; 0; 65] = Some r.
Proof.
  intros (fuel & r & Hrun).
  change (apply_patch little fuel [] [0; 1; 0; 0; 0; 65])
    with (apply_loop fuel [] [mkOperation INSERT 1 65] 0 0 []) in Hrun.
  rewrite apply_loop_dangling in Hrun; [done|].
  split; [simpl; lia|]. split; [lia|]. exists (mkOperation INSERT 1 65). split; [done|].
  simpl. lia.
Qed.

(** ** The pass at the cell (0, 0) *)

Lemma edit_path_empty (s1 s2 : list Z) (fuel : nat) :
  s1 = [] ∨ s2 = [] →
  (length s1 + length s2 < fuel)%nat →
  edit_path fuel s1 s2 = Some (Raise IndexError).
Proof.
  intros Hempty Hfuel. destruct (edit_path_script s1 s2) as (t & ops & _ & _ & _ & Hrun).
  rewrite Hrun by lia. unfold edit_path_result.
  destruct Hempty as [-> | ->]; [done|]. by destruct (last s1).
Qed.

(** C7, on the code.  With an empty [s1] or an empty [s2] the walk ends in
    the pass at [(0, 0)], which reads [s1[-1]] and [s2[-1]]: [edit_path]
    raises IndexError and returns no operations at all. *)
Theorem edit_path_empty_raises (s : list Z) (fuel : nat) :
  edit_path (S (length s) + fuel) [] s = Some (Raise IndexError) ∧
  edit_path (S (length s) + fuel) s [] = Some (Raise IndexError).
Proof. split; apply edit_path_empty; (by left) || (by right) || (simpl; lia). Qed.

(** C8, on the code.  Aligning the empty sequence with itself raises
    IndexError instead of returning zero operations. *)
Theorem edit_path_nil_nil (fuel : nat) :
  edit_path (S fuel) [] [] = Some (Raise IndexError).
Proof. apply edit_path_empty; [by left | simpl; lia]. Qed.

(** C10, on the code.  From "a" to "b" the pass at [(0, 0)] appends a
    REPLACE whose location is -1, below every position of [s1]. *)
Theorem edit_path_a_b_locations (fuel : nat) :
  edit_path (3 + fuel) [97] [98] =
    Some (Ok [mkOperation REPLACE (-1) 98; mkOperation REPLACE 0 98]).
Proof. vm_compute. reflexivity. Qed.

(** C2, on the code.  From "a" to "b" the cell [(1, 1)] records the cost 2
    and the operations returned cost 4. *)
Theorem edit_path_a_b_cost :
  ∃ t d ops,
    levenstein_distance [97] [98] = Ok t ∧
    getitem2 t 1 1 = Ok d ∧
    edit_path 3 [97] [98] = Some (Ok ops) ∧
    cost d = 2 ∧ path_cost ops = 4.
Proof. do 3 eexists. split_and!; vm_compute; reflexivity. Qed.

(** C1, on the code.  On the old file "a" and the new file "b" the script
    stops in [calculate_diff] with struct.error, since the location -1 does
    not fit format 'I'; and on two empty files it stops with IndexError. *)
Theorem main_a_b_raises (order : byteorder) (fuel : nat) :
  main order (3 + fuel) [97] [98] = Some (Raise StructError) ∧
  main order (1 + fuel) [] [] = Some (Raise IndexError).
Proof. destruct order; split; vm_compute; reflexivity. Qed.

(** ** What holds outside the pass at (0, 0) *)

Lemma script_length (s1 s2 : list Z) (t : list (list Distance)) (i j : Z) (ops : list Operation) :
  script s1 s2 t i j ops → Z.of_nat (length ops) ≤ i + j.
Proof. induction 1; rewrite ?length_app; simpl; lia. Qed.

(** When the two sequences end with the same item, [edit_path] returns
    the operations of the walk and nothing else. *)
Lemma edit_path_same_last (s1 s2 : list Z) (a : Z) (fuel : nat) :
  last s1 = Some a → last s2 = Some a →
  (length s1 + length s2 < fuel)%nat →
  ∃ t ops,
    levenstein_distance s1 s2 = Ok t ∧ table_ok s1 s2 t ∧
    script s1 s2 t (Z.of_nat (length s1)) (Z.of_nat (length s2)) ops ∧
    edit_path fuel s1 s2 = Some (Ok ops).
Proof.
  intros Ha Hb Hfuel. destruct (edit_path_script s1 s2) as (t & ops & Ht & Hok & Hops & Hrun).
  exists t, ops. repeat split; [done | done | done |].
  rewrite Hrun by done. unfold edit_path_result. rewrite Ha, Hb.
  by rewrite decide_False by (by intros ?).
Qed.

(** The round trip of the script: on two files of bytes that end with the
    same byte, the old one shorter than [2**32], what [apply_patch] writes
    from the old file and the file written by [calculate_diff] is the new
    file. *)
Lemma main_round_trip (order : byteorder) (fuel : nat) (old_f new_f : list Z) (a : Z) :
  Forall (λ x, 0 ≤ x < 256) old_f →
  Forall (λ x, 0 ≤ x < 256) new_f →
  Z.of_nat (length old_f) < 2 ^ 32 →
  last old_f = Some a → last new_f = Some a →
  (2 * length old_f + length new_f < fuel)%nat →
  main order fuel old_f new_f = Some (Ok new_f).
Proof.
  intros Hold Hnew Hsize Ha Hb Hfuel.
  destruct (edit_path_same_last old_f new_f a fuel Ha Hb ltac:(lia))
    as (t & ops & Ht & Hok & Hops & Hrun).
  destruct (script_locations _ _ _ _ _ _ Hops) as [_ Hbounds].
  pose proof (script_new_bytes _ _ _ _ _ _ Hnew Hops) as Hbytes.
  pose proof (script_length _ _ _ _ _ _ Hops) as Hlen.
  assert (Forall fits_record ops) as Hfits.
  { rewrite Forall_forall in Hbounds, Hbytes. apply Forall_forall. intros o Ho.
    specialize (Hbounds o Ho). specialize (Hbytes o Ho). unfold fits_record. lia. }
  destruct (read_write_edits order ops Hfits) as (f & Hwrite & _ & Hread).
  unfold main, calculate_diff. rewrite Hrun, Hwrite.
  unfold apply_patch. rewrite Hread.
  apply (script_replay_all old_f new_f t Hold Hnew ops Hops). lia.
Qed.

(** Aligning a non-empty sequence with itself gives no operation. *)
Lemma edit_path_identity (s : list Z) (fuel : nat) :
  s ≠ [] →
  (2 * length s < fuel)%nat →
  edit_path fuel s s = Some (Ok []).
Proof.
  intros Hs Hfuel. destruct (levenstein_distance_ok s s) as (t & Ht & Hok).
  assert (∀ k : nat, (k ≤ length s)%nat → script s s t (Z.of_nat k) (Z.of_nat k) []) as Hdiag.
  { induction k as [|k IH]; intros Hk.
    - apply script_origin. specialize (Hok 0 0 ltac:(lia) ltac:(lia)).
      by inversion Hok.
    - specialize (Hok (Z.of_nat (S k)) (Z.of_nat (S k)) ltac:(lia) ltac:(lia)).
      inversion Hok as [| | | i j a b d_del d_ins d_rep Hi Hj Ha Hb Hdel Hins Hrep Hcell]; try lia.
      subst. rewrite Ha in Hb. injection Hb as <-.
      rewrite decide_False in Hcell by (by intros ?).
      replace (Z.of_nat k) with (Z.of_nat (S k) - 1) in IH by lia.
      eapply (script_match s s t _ _ d_rep a); try done; try lia. apply IH. lia. }
  rewrite (edit_path_of_script s s t [] Ht (Hdiag (length s) ltac:(lia))) by lia.
  unfold edit_path_result. destruct (last s) as [a|] eqn:Hlast.
  - by rewrite decide_False by (by intros ?).
  - by apply last_None in Hlast.
Qed.

(** Replaying no operation copies the old data. *)
Lemma apply_edits_nil (old_data : list Z) (fuel : nat) :
  Forall (λ x, 0 ≤ x < 256) old_data →
  (length old_data ≤ fuel)%nat →
  apply_edits fuel old_data [] = Some (Ok old_data).
Proof.
  intros Hbytes Hfuel. unfold apply_edits.
  assert (∀ k fuel, (k ≤ length old_data)%nat → (k ≤ fuel)%nat →
            apply_loop fuel old_data [] (Z.of_nat (length old_data - k)) 0
              (take (length old_data - k) old_data) = Some (Ok old_data)) as Hloop.
  { induction k as [|k IH]; intros fuel' Hk Hfuel'.
    - rewrite apply_loop_exit by (simpl; lia).
      by rewrite Nat.sub_0_r, firstn_all.
    - destruct fuel' as [|fuel']; [lia|].
      destruct (lookup_lt_is_Some_2 old_data (length old_data - S k)) as [x Hx]; [lia|].
      rewrite apply_loop_unfold by (left; lia).
      rewrite (apply_body_copy _ _ _ _ _ x); [| lia | done | lia | by rewrite Nat2Z.id |].
      + rewrite <- (take_S_r _ _ _ Hx).
        replace (Z.of_nat (length old_data - S k) + 1) with (Z.of_nat (length old_data - k)) by lia.
        replace (S (length old_data - S k)) with (length old_data - k)%nat by lia.
        apply IH; lia.
      + rewrite Forall_lookup in Hbytes. by eapply Hbytes. }
  specialize (Hloop (length old_data) fuel ltac:(lia) Hfuel).
  by rewrite Nat.sub_diag in Hloop.
Qed.

(** Outside the pass at [(0, 0)] the locations are within the bounds of
    [s1] and the operations cost what the last cell of the table
    records. *)
Lemma edit_path_same_last_facts (s1 s2 : list Z) (a : Z) (fuel : nat) (ops : list Operation) :
  last s1 = Some a → last s2 = Some a →
  edit_path fuel s1 s2 = Some (Ok ops) →
  Forall (λ o, 0 ≤ location o ≤ Z.of_nat (length s1) ∧
               (code o ≠ INSERT → location o < Z.of_nat (length s1))) ops ∧
  ∃ t d, levenstein_distance s1 s2 = Ok t ∧
         getitem2 t (Z.of_nat (length s1)) (Z.of_nat (length s2)) = Ok d ∧
         cost d = path_cost ops.
Proof.
  intros Ha Hb Hrun. apply edit_path_answer in Hrun as (t & ops' & Ht & Hok & Hops & Hres).
  unfold edit_path_result in Hres. rewrite Ha, Hb in Hres.
  rewrite decide_False in Hres by (by intros ?). simplify_eq.
  destruct (script_locations _ _ _ _ _ _ Hops) as [_ Hbounds].
  destruct (script_cost _ _ _ _ _ _ Hops) as (d & Hd & Hcost).
  split; [done|]. exists t, d. split; [done|]. split; [by apply getitem2_zcell | done].
Qed.

(** ** The costs of the table are least *)

Section least_cost.
Context {T : Type} `{EqDecision T}.
Variables s1 s2 : list T.
Variable t : list (list Distance).
Hypothesis t_ok : table_ok s1 s2 t.

Local Abbreviation n := (Z.of_nat (length s1)).
Local Abbreviation m := (Z.of_nat (length s2)).

Lemma cost_at_origin : cost_at t 0 0 = 0.
Proof.
  unfold cost_at. pose proof (t_ok 0 0 ltac:(lia) ltac:(lia)) as Hrule.
  inversion Hrule as [Horig | | |]; try lia. by rewrite Horig.
Qed.

Lemma cost_at_top j : 1 ≤ j ≤ m → cost_at t 0 j = cost_at t 0 (j - 1) + 3.
Proof.
  intros Hj. unfold cost_at. pose proof (t_ok 0 j ltac:(lia) ltac:(lia)) as Hrule.
  inversion Hrule as [| j' d Hj1 Hd Hcell | |]; try lia. by rewrite Hd, Hcell.
Qed.

Lemma cost_at_left i : 1 ≤ i ≤ n → cost_at t i 0 = cost_at t (i - 1) 0 + 3.
Proof.
  intros Hi. unfold cost_at. pose proof (t_ok i 0 ltac:(lia) ltac:(lia)) as Hrule.
  inversion Hrule as [| | i' d Hi1 Hd Hcell |]; try lia. by rewrite Hd, Hcell.
Qed.

Lemma cost_at_inner i j a b :
  1 ≤ i ≤ n → 1 ≤ j ≤ m →
  s1 !! Z.to_nat (i - 1) = Some a →
  s2 !! Z.to_nat (j - 1) = Some b →
  cost_at t i j =
    if decide (a ≠ b) then
      Z.min (cost_at t (i - 1) j + 3) (Z.min (cost_at t i (j - 1) + 3) (cost_at t (i - 1) (j - 1) + 2))
    else cost_at t (i - 1) (j - 1).
Proof.
  intros Hi Hj Ha Hb. unfold cost_at. pose proof (t_ok i j ltac:(lia) ltac:(lia)) as Hrule.
  inversion Hrule as [| | | i' j' a' b' d_del d_ins d_rep Hi1 Hj1 Ha' Hb' Hdel Hins Hrep Hcell];
    try lia.
  simplify_eq. rewrite Hdel, Hins, Hrep, Hcell. case_decide; [|done].
  rewrite py_min_three. unfold DELETE_COST, INSERT_COST, REPLACE_COST.
  repeat case_decide; cbn [cost] in *; lia.
Qed.

(** One more item on either side changes the cost by 3 at most, and one
    more item on both sides by 2 at most. *)
Lemma cost_at_neighbours i j :
  0 ≤ i ≤ n → 0 ≤ j ≤ m →
  (1 ≤ i → cost_at t i j ≤ cost_at t (i - 1) j + 3) ∧
  (1 ≤ j → cost_at t i j ≤ cost_at t i (j - 1) + 3) ∧
  (1 ≤ i → 1 ≤ j → cost_at t i j ≤ cost_at t (i - 1) (j - 1) + 2) ∧
  (j < m → cost_at t i j ≤ cost_at t i (j + 1) + 3) ∧
  (i < n → cost_at t i j ≤ cost_at t (i + 1) j + 3).
Proof.
  remember (Z.to_nat (i + j)) as k eqn:Hk. revert i j Hk.
  induction (lt_wf k) as [k _ IH]. intros i j -> Hi Hj.
  assert (∀ i' j', 0 ≤ i' ≤ n → 0 ≤ j' ≤ m → i' + j' < i + j →
            (j' < m → cost_at t i' j' ≤ cost_at t i' (j' + 1) + 3) ∧
            (i' < n → cost_at t i' j' ≤ cost_at t (i' + 1) j' + 3)) as IH'.
  { intros i' j' Hi' Hj' Hlt.
    destruct (IH (Z.to_nat (i' + j')) ltac:(lia) i' j' eq_refl Hi' Hj') as (_ & _ & _ & ? & ?).
    done. }
  clear IH.
  assert (1 ≤ i → cost_at t i j ≤ cost_at t (i - 1) j + 3) as Hdel.
  { intros Hi1. destruct (decide (j = 0)) as [->|Hj0].
    - rewrite cost_at_left by lia. lia.
    - destruct (lookup_lt_is_Some_2 s1 (Z.to_nat (i - 1))) as [a Ha]; [lia|].
      destruct (lookup_lt_is_Some_2 s2 (Z.to_nat (j - 1))) as [b Hb]; [lia|].
      rewrite (cost_at_inner i j a b) by (done || lia). case_decide; [lia|].
      destruct (IH' (i - 1) (j - 1)) as [Hright _]; [lia | lia | lia |].
      specialize (Hright ltac:(lia)). by replace (j - 1 + 1) with j in Hright by lia. }
  assert (1 ≤ j → cost_at t i j ≤ cost_at t i (j - 1) + 3) as Hins.
  { intros Hj1. destruct (decide (i = 0)) as [->|Hi0].
    - rewrite cost_at_top by lia. lia.
    - destruct (lookup_lt_is_Some_2 s1 (Z.to_nat (i - 1))) as [a Ha]; [lia|].
      destruct (lookup_lt_is_Some_2 s2 (Z.to_nat (j - 1))) as [b Hb]; [lia|].
      rewrite (cost_at_inner i j a b) by (done || lia). case_decide; [lia|].
      destruct (IH' (i - 1) (j - 1)) as [_ Hdown]; [lia | lia | lia |].
      specialize (Hdown ltac:(lia)). by replace (i - 1 + 1) with i in Hdown by lia. }
  split; [done|]. split; [done|]. split; [|split].
  - intros Hi1 Hj1.
    destruct (lookup_lt_is_Some_2 s1 (Z.to_nat (i - 1))) as [a Ha]; [lia|].
    destruct (lookup_lt_is_Some_2 s2 (Z.to_nat (j - 1))) as [b Hb]; [lia|].
    rewrite (cost_at_inner i j a b) by (done || lia). case_decide; lia.
  - intros Hjm. destruct (decide (i = 0)) as [->|Hi0].
    + rewrite (cost_at_top (j + 1)) by lia. replace (j + 1 - 1) with j by lia. lia.
    + destruct (lookup_lt_is_Some_2 s1 (Z.to_nat (i - 1))) as [a Ha]; [lia|].
      destruct (lookup_lt_is_Some_2 s2 (Z.to_nat (j + 1 - 1))) as [b Hb]; [lia|].
      rewrite (cost_at_inner i (j + 1) a b) by (done || lia).
      replace (j + 1 - 1) with j by lia.
      destruct (IH' (i - 1) j) as [Hright _]; [lia | lia | lia |].
      specialize (Hdel ltac:(lia)). specialize (Hright ltac:(lia)).
      case_decide; lia.
  - intros Hin. destruct (decide (j = 0)) as [->|Hj0].
    + rewrite (cost_at_left (i + 1)) by lia. replace (i + 1 - 1) with i by lia. lia.
    + destruct (lookup_lt_is_Some_2 s1 (Z.to_nat (i + 1 - 1))) as [a Ha]; [lia|].
      destruct (lookup_lt_is_Some_2 s2 (Z.to_nat (j - 1))) as [b Hb]; [lia|].
      rewrite (cost_at_inner (i + 1) j a b) by (done || lia).
      replace (i + 1 - 1) with i by lia.
      destruct (IH' i (j - 1)) as [_ Hdown]; [lia | lia | lia |].
      specialize (Hins ltac:(lia)). specialize (Hdown ltac:(lia)).
      case_decide; lia.
Qed.

(** Two equal items cost nothing. *)
Lemma cost_at_match i j a :
  0 ≤ i < n → 0 ≤ j < m →
  s1 !! Z.to_nat i = Some a →
  s2 !! Z.to_nat j = Some a →
  cost_at t (i + 1) (j + 1) = cost_at t i j.
Proof.
  intros Hi Hj Ha Hb.
  rewrite (cost_at_inner (i + 1) (j + 1) a a);
    [| lia | lia | by replace (i + 1 - 1) with i by lia | by replace (j + 1 - 1) with j by lia].
  rewrite decide_False by (by intros ?). f_equal; lia.
Qed.
End least_cost.

(** ** No cheaper list of operations *)

Lemma getitem_Ok_lookup {A} (l : list A) (i : Z) (x : A) :
  0 ≤ i → getitem l i = Ok x → l !! Z.to_nat i = Some x.
Proof.
  intros Hi. unfold getitem, py_index.
  case_decide; [|case_decide; [lia | done]]. cbn [mbind result_bind].
  by destruct (l !! Z.to_nat i); intros [= ->].
Qed.

Lemma py_bytes_Ok (l w : list Z) : py_bytes l = Ok w → w = l.
Proof. unfold py_bytes. case_decide; by intros [= ->]. Qed.

(** The three things a pass of the replay loop can do. *)
Lemma apply_body_Ok (old_data : list Z) (edits : list Operation)
    (data_i edit_i : Z) (out : list Z) (data_i' edit_i' : Z) (out' : list Z) :
  0 ≤ data_i → 0 ≤ edit_i →
  apply_body old_data edits data_i edit_i out = Ok (data_i', edit_i', out') →
  (∃ edit, edits !! Z.to_nat edit_i = Some edit ∧ location edit = data_i ∧
           edit_i' = edit_i + 1 ∧
           match code edit with
           | REPLACE => data_i' = data_i + 1 ∧ out' = out ++ [new_byte edit]
           | INSERT => data_i' = data_i ∧ out' = out ++ [new_byte edit]
           | DELETE => data_i' = data_i + 1 ∧ out' = out
           end) ∨
  (∃ x, old_data !! Z.to_nat data_i = Some x ∧
        data_i' = data_i + 1 ∧ edit_i' = edit_i ∧ out' = out ++ [x]) ∨
  (data_i' = data_i ∧ edit_i' = edit_i ∧ out' = out).
Proof.
  intros Hd Hi. unfold apply_body.
  assert (∀ x, (if decide (data_i < Z.of_nat (length old_data)) then
                  x ← getitem old_data data_i; w ← py_bytes [x]; Ok (data_i + 1, edit_i, out ++ w)
                else Ok (data_i, edit_i, out)) = Ok x →
          x = (data_i', edit_i', out') →
          (∃ x, old_data !! Z.to_nat data_i = Some x ∧
                data_i' = data_i + 1 ∧ edit_i' = edit_i ∧ out' = out ++ [x]) ∨
          (data_i' = data_i ∧ edit_i' = edit_i ∧ out' = out)) as Hmiss.
  { intros st Hst ->. case_decide; [|right; by simplify_eq]. left.
    destruct (getitem old_data data_i) as [x|] eqn:Hx; [|done]. cbn [mbind result_bind] in Hst.
    destruct (py_bytes [x]) as [w|] eqn:Hw; [|done]. cbn [mbind result_bind] in Hst.
    apply py_bytes_Ok in Hw as ->. apply getitem_Ok_lookup in Hx; [|done].
    exists x. by simplify_eq. }
  destruct (decide (edit_i < Z.of_nat (length edits))) as [Hlt|Hge]; cbn [mbind result_bind].
  - destruct (getitem edits edit_i) as [edit|] eqn:Hedit; [|done]. cbn [mbind result_bind].
    apply getitem_Ok_lookup in Hedit; [|done].
    case_bool_decide as Hloc.
    + intros Hst. left. exists edit. split; [done|]. split; [done|].
      cbn [mbind result_bind] in Hst.
      destruct (code edit); cbn [mbind result_bind] in Hst;
        try (destruct (py_bytes [new_byte edit]) as [w|] eqn:Hw; [|done];
             cbn [mbind result_bind] in Hst; apply py_bytes_Ok in Hw as ->);
        by simplify_eq.
    + intros Hst. right. by eapply Hmiss.
  - intros Hst. right. by eapply Hmiss.
Qed.

(** What the loop has written stays written. *)
Lemma apply_loop_prefix (old_data : list Z) (edits : list Operation) (fuel : nat)
    (data_i edit_i : Z) (out final : list Z) :
  0 ≤ data_i → 0 ≤ edit_i →
  apply_loop fuel old_data edits data_i edit_i out = Some (Ok final) →
  ∃ rest, final = out ++ rest.
Proof.
  revert data_i edit_i out. induction fuel as [|fuel IH]; intros data_i edit_i out Hd Hi.
  - simpl. case_decide; [done|]. intros [= ->]. exists []. by rewrite app_nil_r.
  - simpl. case_decide; [|intros [= ->]; exists []; by rewrite app_nil_r].
    destruct (apply_body old_data edits data_i edit_i out) as [[[d' e'] out']|] eqn:Hbody; [|done].
    intros Hrun.
    apply apply_body_Ok in Hbody
      as [(edit & _ & _ & -> & Hcode) | [(x & _ & -> & -> & ->) | (-> & -> & ->)]]; [| | | done..].
    + destruct (code edit); destruct Hcode as [-> ->].
      * apply IH in Hrun as [rest ->]; [|lia..]. exists ([new_byte edit] ++ rest).
        by rewrite app_assoc.
      * apply IH in Hrun as [rest ->]; [|lia..]. by exists rest.
      * apply IH in Hrun as [rest ->]; [|lia..]. exists ([new_byte edit] ++ rest).
        by rewrite app_assoc.
    + apply IH in Hrun as [rest ->]; [|lia..]. exists ([x] ++ rest). by rewrite app_assoc.
    + by apply IH in Hrun.
Qed.

Section no_cheaper.
Variables s1 s2 : list Z.
Variable t : list (list Distance).
Hypothesis t_ok : table_ok s1 s2 t.
Variable edits : list Operation.
Hypothesis in_bounds :
  Forall (λ o, code o ≠ INSERT → location o < Z.of_nat (length s1)) edits.

Local Abbreviation n := (Z.of_nat (length s1)).
Local Abbreviation m := (Z.of_nat (length s2)).

(** A run of the replay loop that ends with [s2] written has, at every
    state, operations left that cost at least the difference between the
    last cell of the table and the cell of that state. *)
Lemma apply_loop_cost fuel data_i edit_i out :
  0 ≤ data_i ≤ n → 0 ≤ edit_i →
  apply_loop fuel s1 edits data_i edit_i out = Some (Ok s2) →
  cost_at t n m ≤
    cost_at t data_i (Z.of_nat (length out)) + path_cost (drop (Z.to_nat edit_i) edits).
Proof.
  revert data_i edit_i out. induction fuel as [|fuel IH]; intros data_i edit_i out Hd Hi Hrun.
  - simpl in Hrun. case_decide as Hcond; [done|]. injection Hrun as ->.
    rewrite drop_ge by lia. simpl. replace data_i with n by lia. lia.
  - pose proof Hrun as Hpre. apply apply_loop_prefix in Hpre as [rest0 Hrest0]; [|lia..].
    simpl in Hrun. case_decide as Hcond.
    2:{ injection Hrun as ->. rewrite drop_ge by lia. simpl. replace data_i with n by lia. lia. }
    destruct (apply_body s1 edits data_i edit_i out) as [[[d' e'] out']|] eqn:Hbody; [|done].
    assert (Z.of_nat (length out) ≤ m) as Hout by (rewrite Hrest0, length_app; lia).
    pose proof (cost_at_neighbours s1 s2 t t_ok) as Hnb.
    apply apply_body_Ok in Hbody
      as [(edit & Hedit & Hloc & -> & Hcode) | [(x & Hx & -> & -> & ->) | (-> & -> & ->)]];
      [| | | lia | lia].
    + rewrite (drop_S _ _ _ Hedit). cbn [path_cost foldr]. fold (path_cost (drop (S (Z.to_nat edit_i)) edits)).
      rewrite Forall_lookup in in_bounds. specialize (in_bounds _ _ Hedit).
      unfold op_cost. destruct (code edit) eqn:Hc; destruct Hcode as [-> ->].
      * pose proof Hrun as Hpre. apply apply_loop_prefix in Hpre as [rest Hrest]; [|lia..].
        assert (Z.of_nat (length out) + 1 ≤ m) as Hout'
          by (rewrite Hrest, !length_app; simpl; lia).
        apply IH in Hrun; [|lia..].
        rewrite length_app in Hrun. cbn [length] in Hrun.
        replace (Z.to_nat (edit_i + 1)) with (S (Z.to_nat edit_i)) in Hrun by lia.
        replace (Z.of_nat (length out + 1)) with (Z.of_nat (length out) + 1) in Hrun by lia.
        destruct (Hnb data_i (Z.of_nat (length out) + 1) ltac:(lia) ltac:(lia)) as (_ & Hins & _).
        specialize (Hins ltac:(lia)).
        replace (Z.of_nat (length out) + 1 - 1) with (Z.of_nat (length out)) in Hins by lia.
        unfold INSERT_COST. lia.
      * specialize (in_bounds ltac:(done)).
        apply IH in Hrun; [|lia..].
        replace (Z.to_nat (edit_i + 1)) with (S (Z.to_nat edit_i)) in Hrun by lia.
        destruct (Hnb (data_i + 1) (Z.of_nat (length out)) ltac:(lia) ltac:(lia)) as (Hdel & _).
        specialize (Hdel ltac:(lia)).
        replace (data_i + 1 - 1) with data_i in Hdel by lia.
        unfold DELETE_COST. lia.
      * specialize (in_bounds ltac:(done)).
        pose proof Hrun as Hpre. apply apply_loop_prefix in Hpre as [rest Hrest]; [|lia..].
        assert (Z.of_nat (length out) + 1 ≤ m) as Hout'
          by (rewrite Hrest, !length_app; simpl; lia).
        apply IH in Hrun; [|lia..].
        rewrite length_app in Hrun. cbn [length] in Hrun.
        replace (Z.to_nat (edit_i + 1)) with (S (Z.to_nat edit_i)) in Hrun by lia.
        replace (Z.of_nat (length out + 1)) with (Z.of_nat (length out) + 1) in Hrun by lia.
        destruct (Hnb (data_i + 1) (Z.of_nat (length out) + 1) ltac:(lia) ltac:(lia))
          as (_ & _ & Hrep & _).
        specialize (Hrep ltac:(lia) ltac:(lia)).
        replace (Z.of_nat (length out) + 1 - 1) with (Z.of_nat (length out)) in Hrep by lia.
        replace (data_i + 1 - 1) with data_i in Hrep by lia.
        unfold REPLACE_COST. lia.
    + pose proof (lookup_lt_Some _ _ _ Hx) as Hlt.
      pose proof Hrun as Hpre. apply apply_loop_prefix in Hpre as [rest Hrest]; [|lia..].
      assert (s2 !! length out = Some x) as Hx2.
      { rewrite Hrest, <- app_assoc. by apply list_lookup_middle. }
      pose proof (lookup_lt_Some _ _ _ Hx2) as Hlt2.
      apply IH in Hrun; [|lia..].
      rewrite length_app in Hrun. cbn [length] in Hrun.
      replace (Z.of_nat (length out + 1)) with (Z.of_nat (length out) + 1) in Hrun by lia.
      rewrite (cost_at_match s1 s2 t t_ok data_i (Z.of_nat (length out)) x) in Hrun;
        [done | lia | lia | done | by rewrite Nat2Z.id].
    + by apply IH in Hrun.
Qed.

(** No list of operations within the bounds of [s1] whose replay writes
    [s2] costs less than the last cell of the table records. *)
Lemma table_cost_least fuel :
  apply_edits fuel s1 edits = Some (Ok s2) →
  cost_at t n m ≤ path_cost edits.
Proof.
  intros Hrun. apply apply_loop_cost in Hrun; [|lia..].
  change (Z.of_nat (length [])) with 0 in Hrun.
  change (Z.to_nat 0) with 0%nat in Hrun. rewrite drop_0 in Hrun.
  rewrite (cost_at_origin s1 s2 t t_ok) in Hrun. by rewrite Z.add_0_l in Hrun.
Qed.
End no_cheaper.

(** * Further properties of the program *)

Lemma main_round_trip_witness :
  main little 20 [97; 98; 99] [97; 120; 121; 99] = Some (Ok [97; 120; 121; 99]).
Proof.
  apply (main_round_trip little 20 [97; 98; 99] [97; 120; 121; 99] 99).
  - repeat constructor; lia.
  - repeat constructor; lia.
  - simpl. lia.
  - reflexivity.
  - reflexivity.
  - simpl. lia.
Defined.

Lemma edit_path_identity_witness : edit_path 7 [97; 98; 99] [97; 98; 99] = Some (Ok []).
Proof. apply (edit_path_identity [97; 98; 99] 7); [discriminate | simpl; lia]. Defined.

Lemma apply_edits_nil_witness : apply_edits 3 [97; 98; 99] [] = Some (Ok [97; 98; 99]).
Proof. apply (apply_edits_nil [97; 98; 99] 3); [repeat constructor; lia | simpl; lia]. Defined.

(** With fuel above [len(s1) + len(s2)] the loop of [edit_path] always
    ends, with a list of operations or with IndexError. *)
Theorem edit_path_terminates (s1 s2 : list Z) (fuel : nat) :
  (∃ ops, edit_path (S (length s1 + length s2) + fuel) s1 s2 = Some (Ok ops)) ∨
  edit_path (S (length s1 + length s2) + fuel) s1 s2 = Some (Raise IndexError).
Proof.
  destruct (edit_path_script s1 s2) as (t & ops & _ & _ & _ & Hrun).
  rewrite Hrun by lia. unfold edit_path_result.
  destruct (last s1); [|by right]. destruct (last s2); [|by right]. left. by eexists.
Qed.

(** [levenstein_distance] raises nothing; its table starts with
    [Distance(0, -1, -1)], and its first row and first column add 3 per
    item. *)
Theorem levenstein_distance_borders {T : Type} `{EqDecision T} (s1 s2 : list T) :
  ∃ t, levenstein_distance s1 s2 = Ok t ∧
       getitem2 t 0 0 = Ok (mkDistance 0 (-1) (-1)) ∧
       (∀ j, 1 ≤ j ≤ Z.of_nat (length s2) →
             getitem2 t 0 j = Ok (mkDistance (3 * j) 0 (j - 1))) ∧
       (∀ i, 1 ≤ i ≤ Z.of_nat (length s1) →
             getitem2 t i 0 = Ok (mkDistance (3 * i) (i - 1) 0)).
Proof.
  destruct (levenstein_distance_ok s1 s2) as (t & Ht & Hok). exists t. split; [done|].
  assert (zcell t 0 0 = Some (mkDistance 0 (-1) (-1))) as Horig.
  { pose proof (Hok 0 0 ltac:(lia) ltac:(lia)) as Hrule. by inversion Hrule. }
  split; [by apply getitem2_zcell|]. split.
  - assert (∀ k : nat, (1 ≤ k)%nat → Z.of_nat k ≤ Z.of_nat (length s2) →
              zcell t 0 (Z.of_nat k) = Some (mkDistance (3 * Z.of_nat k) 0 (Z.of_nat k - 1)))
      as Hrow.
    { induction k as [|k IH]; intros Hk1 Hk; [lia|].
      pose proof (Hok 0 (Z.of_nat (S k)) ltac:(lia) ltac:(lia)) as Hrule.
      inversion Hrule as [| j d Hj1 Hd Hcell | |]; try lia. subst.
      rewrite Hcell. f_equal. replace (Z.of_nat (S k) - 1) with (Z.of_nat k) in Hd by lia.
      destruct (decide (k = 0%nat)) as [->|Hk0].
      - change (Z.of_nat 0) with 0 in Hd. rewrite Horig in Hd. by simplify_eq.
      - rewrite IH in Hd by lia. simplify_eq. cbn [cost]. unfold INSERT_COST. f_equal. lia. }
    intros j Hj. apply getitem2_zcell.
    specialize (Hrow (Z.to_nat j) ltac:(lia) ltac:(lia)).
    by rewrite Z2Nat.id in Hrow by lia.
  - assert (∀ k : nat, (1 ≤ k)%nat → Z.of_nat k ≤ Z.of_nat (length s1) →
              zcell t (Z.of_nat k) 0 = Some (mkDistance (3 * Z.of_nat k) (Z.of_nat k - 1) 0))
      as Hcol.
    { induction k as [|k IH]; intros Hk1 Hk; [lia|].
      pose proof (Hok (Z.of_nat (S k)) 0 ltac:(lia) ltac:(lia)) as Hrule.
      inversion Hrule as [| | i d Hi1 Hd Hcell |]; try lia. subst.
      rewrite Hcell. f_equal. replace (Z.of_nat (S k) - 1) with (Z.of_nat k) in Hd by lia.
      destruct (decide (k = 0%nat)) as [->|Hk0].
      - change (Z.of_nat 0) with 0 in Hd. rewrite Horig in Hd. by simplify_eq.
      - rewrite IH in Hd by lia. simplify_eq. cbn [cost]. unfold DELETE_COST. f_equal. lia. }
    intros i Hi. apply getitem2_zcell.
    specialize (Hcol (Z.to_nat i) ltac:(lia) ltac:(lia)).
    by rewrite Z2Nat.id in Hcol by lia.
Qed.

Lemma zcell_defined {T : Type} `{EqDecision T} (s1 s2 : list T) (t : list (list Distance)) (i j : Z) :
  table_ok s1 s2 t →
  0 ≤ i ≤ Z.of_nat (length s1) → 0 ≤ j ≤ Z.of_nat (length s2) →
  is_Some (zcell t i j).
Proof. intros Hok Hi Hj. destruct (Hok i j Hi Hj); by eexists. Qed.

(** The cost in the last cell of the table is least: no list of
    operations whose DELETE and REPLACE locations are positions of [s1] and
    whose replay on [s1] writes [s2] costs less. *)
Theorem levenstein_distance_least (s1 s2 : list Z) (edits : list Operation) (fuel : nat) :
  Forall (λ o, code o ≠ INSERT → location o < Z.of_nat (length s1)) edits →
  apply_edits fuel s1 edits = Some (Ok s2) →
  ∃ t d, levenstein_distance s1 s2 = Ok t ∧
         getitem2 t (Z.of_nat (length s1)) (Z.of_nat (length s2)) = Ok d ∧
         cost d ≤ path_cost edits.
Proof.
  intros Hbounds Hrun. destruct (levenstein_distance_ok s1 s2) as (t & Ht & Hok).
  destruct (zcell_defined s1 s2 t (Z.of_nat (length s1)) (Z.of_nat (length s2)) Hok)
    as [d Hd]; [lia | lia |].
  exists t, d. split; [done|]. split; [by apply getitem2_zcell|].
  pose proof (table_cost_least s1 s2 t Hok edits Hbounds fuel Hrun) as Hleast.
  unfold cost_at in Hleast. by rewrite Hd in Hleast.
Qed.

Lemma levenstein_distance_least_witness :
  ∃ t d, levenstein_distance [97; 98] [97; 99; 100] = Ok t ∧
         getitem2 t 2 3 = Ok d ∧
         cost d ≤ path_cost [mkOperation DELETE 1 0; mkOperation INSERT 2 99;
                             mkOperation INSERT 2 100].
Proof.
  apply (levenstein_distance_least [97; 98] [97; 99; 100]
           [mkOperation DELETE 1 0; mkOperation INSERT 2 99; mkOperation INSERT 2 100] 10).
  - do 3 (apply Forall_cons_2; [simpl; intros Hc; lia || done|]). apply Forall_nil_2.
  - vm_compute. reflexivity.
Defined.

(** Outside the bounds of [s1] the replay is cheaper than the table: a
    REPLACE at location 0 of the empty sequence writes its byte like an
    INSERT, for the cost 2 instead of 3. *)
Example replace_past_the_end :
  apply_edits 2 [] [mkOperation REPLACE 0 120] = Some (Ok [120]) ∧
  path_cost [mkOperation REPLACE 0 120] = 2 ∧
  ∃ t, levenstein_distance (@nil Z) [120] = Ok t ∧ getitem2 t 0 1 = Ok (mkDistance 3 0 0).
Proof. split_and!; [done | done |]. eexists. split; vm_compute; reflexivity. Qed.

Lemma edit_path_same_last_facts_witness :
  Forall (λ o, 0 ≤ location o ≤ 3 ∧ (code o ≠ INSERT → location o < 3))
    [mkOperation REPLACE 1 120; mkOperation INSERT 2 121] ∧
  ∃ t d, levenstein_distance [97; 98; 99] [97; 120; 121; 99] = Ok t ∧
         getitem2 t 3 4 = Ok d ∧
         cost d = path_cost [mkOperation REPLACE 1 120; mkOperation INSERT 2 121].
Proof.
  apply (edit_path_same_last_facts [97; 98; 99] [97; 120; 121; 99] 99 10).
  - reflexivity.
  - reflexivity.
  - vm_compute. reflexivity.
Defined.

(** When the two files are non-empty and their last bytes differ, the
    script stops in [calculate_diff]: the first operation is the REPLACE at
    location -1, which [struct.pack] refuses. *)
Theorem main_last_bytes_differ (order : byteorder) (fuel : nat) (old_f new_f : list Z) (a b : Z) :
  last old_f = Some a → last new_f = Some b → a ≠ b →
  (length old_f + length new_f < fuel)%nat →
  main order fuel old_f new_f = Some (Raise StructError).
Proof.
  intros Ha Hb Hab Hfuel.
  destruct (edit_path_script old_f new_f) as (t & ops & _ & _ & _ & Hrun).
  unfold main, calculate_diff. rewrite Hrun by done.
  unfold edit_path_result. rewrite Ha, Hb, decide_True by done.
  rewrite write_edits_cons. unfold encode_edit, struct_pack_I. cbn [location].
  by rewrite decide_False by lia.
Qed.

Lemma main_last_bytes_differ_witness :
  main big 5 [97; 98] [97; 99] = Some (Raise StructError).
Proof.
  apply (main_last_bytes_differ big 5 [97; 98] [97; 99] 98 99).
  - reflexivity.
  - reflexivity.
  - discriminate.
  - simpl. lia.
Defined.

(** * More of the program *)

(** ** file_iter *)

(** One pass of the loop of [file_iter]. *)
Lemma file_iter_unfold (file : list Z) (batch_size : nat) (exact_batch : bool) :
  (0 < batch_size)%nat →
  file_iter file batch_size exact_batch =
    match take batch_size file with
    | [] => Stop
    | _ :: _ =>
        if exact_batch && negb (bool_decide (length (take batch_size file) = batch_size))
        then Throw AssertionError
        else Yield (take batch_size file) (file_iter (drop batch_size file) batch_size exact_batch)
    end.
Proof.
  intros Hbatch. destruct file as [|x file].
  - unfold file_iter. simpl. by rewrite take_nil.
  - unfold file_iter at 1. cbn [length file_iter_from].
    destruct (take batch_size (x :: file)) as [|y b] eqn:Htake; [done|].
    destruct (_ && _); [done|]. f_equal.
    apply file_iter_from_more; [done|].
    rewrite length_drop. simpl. lia.
Qed.

(** Without [exact_batch], [file_iter] raises nothing and cuts the file
    into batches: batch [k] is the [batch_size] bytes from position
    [k * batch_size] on, fewer for the last batch, and the batches put end
    to end are the file. *)
Theorem file_iter_batches (file : list Z) (batch_size : nat) :
  (0 < batch_size)%nat →
  gen_raised (file_iter file batch_size false) = None ∧
  concat (gen_items (file_iter file batch_size false)) = file ∧
  ∀ k, gen_items (file_iter file batch_size false) !! k =
       if decide (k * batch_size < length file)%nat
       then Some (take batch_size (drop (k * batch_size) file))
       else None.
Proof.
  intros Hbatch. remember (length file) as len eqn:Hlen. revert file Hlen.
  induction (lt_wf len) as [len _ IH]. intros file ->.
  rewrite file_iter_unfold by done.
  destruct file as [|x file].
  { rewrite take_nil. cbn [gen_raised gen_items concat length]. split; [done|]. split; [done|].
    intros k. by rewrite decide_False by lia. }
  destruct (take batch_size (x :: file)) as [|y b] eqn:Htake.
  { destruct batch_size; [lia | done]. }
  rewrite <- Htake. cbn [andb gen_raised gen_items concat].
  destruct (IH (length (drop batch_size (x :: file)))
              ltac:(rewrite length_drop; simpl; lia) _ eq_refl) as (IHr & IHc & IHk).
  split; [done|]. split; [by rewrite IHc, take_drop|].
  intros [|k].
  - rewrite decide_True by (simpl; lia). done.
  - cbn [lookup list_lookup]. rewrite IHk, length_drop, drop_drop.
    replace (S k * batch_size)%nat with (batch_size + k * batch_size)%nat by lia.
    repeat case_decide; done || lia.
Qed.

Lemma file_iter_batches_witness :
  gen_raised (file_iter [1; 2; 3; 4; 5; 6; 7] 3 false) = None ∧
  concat (gen_items (file_iter [1; 2; 3; 4; 5; 6; 7] 3 false)) = [1; 2; 3; 4; 5; 6; 7] ∧
  gen_items (file_iter [1; 2; 3; 4; 5; 6; 7] 3 false) !! 2%nat = Some [7].
Proof.
  destruct (file_iter_batches [1; 2; 3; 4; 5; 6; 7] 3) as (Hr & Hc & Hk); [lia|].
  split; [exact Hr|]. split; [exact Hc|]. exact (Hk 2%nat).
Defined.

(** With [exact_batch], [file_iter] yields the whole batches of the file
    in order, and then raises AssertionError exactly when bytes are left
    over, that is when [batch_size] does not divide the length of the
    file. *)
Theorem file_iter_exact_batches (file : list Z) (batch_size : nat) :
  (0 < batch_size)%nat →
  gen_raised (file_iter file batch_size true) =
    (if decide (length file `mod` batch_size = 0)%nat then None else Some AssertionError) ∧
  ∀ k, gen_items (file_iter file batch_size true) !! k =
       if decide (S k * batch_size ≤ length file)%nat
       then Some (take batch_size (drop (k * batch_size) file))
       else None.
Proof.
  intros Hbatch. remember (length file) as len eqn:Hlen. revert file Hlen.
  induction (lt_wf len) as [len _ IH]. intros file ->.
  rewrite file_iter_unfold by done.
  destruct file as [|x file].
  { rewrite take_nil. cbn [gen_raised gen_items length].
    rewrite Nat.Div0.mod_0_l. split; [done|].
    intros k. rewrite decide_False by (simpl; lia). done. }
  destruct (take batch_size (x :: file)) as [|y b] eqn:Htake.
  { destruct batch_size; [lia | done]. }
  rewrite <- Htake. cbn [andb]. rewrite length_take.
  assert (length (x :: file) ≠ 0%nat) as Hne by (simpl; lia).
  set (f := x :: file) in *.
  case_bool_decide as Hfull; cbn [negb gen_raised gen_items].
  - assert (batch_size ≤ length f)%nat as Hle by lia.
    destruct (IH (length (drop batch_size f))
                ltac:(rewrite length_drop; lia) _ eq_refl) as (IHr & IHk).
    split.
    + rewrite IHr, length_drop.
      assert (length f `mod` batch_size = (length f - batch_size) `mod` batch_size)%nat as ->; [|done].
      rewrite <- (Nat.Div0.mod_add (length f - batch_size) 1 batch_size). f_equal. lia.
    + intros [|k].
      * rewrite decide_True by lia. done.
      * cbn [lookup list_lookup]. rewrite IHk, length_drop, drop_drop.
        replace (S k * batch_size)%nat with (batch_size + k * batch_size)%nat by lia.
        replace (S (S k) * batch_size)%nat
          with (batch_size + (batch_size + k * batch_size))%nat by lia.
        repeat case_decide; done || lia.
  - assert (length f < batch_size)%nat as Hlt by lia.
    split.
    + rewrite Nat.mod_small by done. by rewrite decide_False.
    + intros k. rewrite decide_False by lia. done.
Qed.

Lemma file_iter_exact_batches_witness :
  gen_raised (file_iter [1; 2; 3; 4; 5; 6; 7] 3 true) = Some AssertionError ∧
  gen_items (file_iter [1; 2; 3; 4; 5; 6; 7] 3 true) !! 1%nat = Some [4; 5; 6] ∧
  gen_items (file_iter [1; 2; 3; 4; 5; 6; 7] 3 true) !! 2%nat = None.
Proof.
  destruct (file_iter_exact_batches [1; 2; 3; 4; 5; 6; 7] 3) as (Hr & Hk); [lia|].
  split; [exact Hr|]. split; [exact (Hk 1%nat) | exact (Hk 2%nat)].
Defined.

(** ** The shape and the costs of the table *)

Lemma getitem_Ok {A} (l : list A) (i : Z) (x : A) :
  getitem l i = Ok x → ∃ k, py_index (length l) i = Ok k ∧ l !! k = Some x.
Proof.
  unfold getitem. destruct (py_index (length l) i) as [k|]; [|done].
  cbn [mbind result_bind]. destruct (l !! k) as [y|] eqn:Hy; [|done].
  intros [= ->]. by exists k.
Qed.

Lemma setitem_Ok {A} (l l' : list A) (i : Z) (x : A) :
  setitem l i x = Ok l' → ∃ k, l' = <[k := x]> l.
Proof.
  unfold setitem. destruct (py_index (length l) i) as [k|]; [|done].
  cbn [mbind result_bind]. intros [= <-]. by exists k.
Qed.

(** A table of [rows] rows of [cols] cells each. *)
Lemma setitem2_shape {A} (t t' : list (list A)) (i j : Z) (x : A) (rows cols : nat) :
  setitem2 t i j x = Ok t' →
  length t = rows ∧ Forall (λ row, length row = cols) t →
  length t' = rows ∧ Forall (λ row, length row = cols) t'.
Proof.
  unfold setitem2. destruct (getitem t i) as [row|] eqn:Hrow; [|done].
  cbn [mbind result_bind]. destruct (setitem row j x) as [row'|] eqn:Hrow'; [|done].
  cbn [mbind result_bind]. intros Hset [Hrows Hcols].
  apply getitem_Ok in Hrow as (k & _ & Hk).
  apply setitem_Ok in Hrow' as (k' & ->). apply setitem_Ok in Hset as (k'' & ->).
  split; [by rewrite length_insert|].
  apply Forall_insert; [done|]. rewrite length_insert.
  rewrite Forall_lookup in Hcols. by eapply Hcols.
Qed.

Lemma for_each_keeps {A S} (Q : S → Prop) (xs : list A) (body : A → S → result S) (st st' : S) :
  (∀ x st st', body x st = Ok st' → Q st → Q st') →
  for_each xs body st = Ok st' → Q st → Q st'.
Proof.
  intros Hbody. revert st. induction xs as [|x xs IH]; intros st.
  - simpl. by intros [= ->].
  - simpl. destruct (body x st) as [st1|] eqn:Hst1; [|done]. cbn [mbind result_bind].
    intros Hrest HQ. eapply IH; [done|]. by eapply Hbody.
Qed.

(** The table of [levenstein_distance] has [len(s1) + 1] rows of
    [len(s2) + 1] cells each. *)
Theorem levenstein_distance_shape {T : Type} `{EqDecision T} (s1 s2 : list T) :
  ∃ t, levenstein_distance s1 s2 = Ok t ∧
       length t = S (length s1) ∧
       Forall (λ row, length row = S (length s2)) t.
Proof.
  destruct (levenstein_distance_ok s1 s2) as (t & Ht & _). exists t. split; [done|].
  revert Ht. unfold levenstein_distance.
  set (t0 := replicate _ _).
  set (shape := λ t : list (list Distance),
         length t = S (length s1) ∧ Forall (λ row, length row = S (length s2)) t).
  assert (shape t0) as Hshape0.
  { split.
    - unfold t0. rewrite length_replicate. lia.
    - apply Forall_replicate. rewrite length_replicate. lia. }
  assert (∀ j t t', fill_top j t = Ok t' → shape t → shape t') as Htop.
  { intros j t1 t1'. unfold fill_top.
    destruct (getitem2 t1 0 (j - 1)); [|done]. cbn [mbind result_bind].
    apply setitem2_shape. }
  assert (∀ i j t t', fill_cell s1 s2 i j t = Ok t' → shape t → shape t') as Hcell.
  { intros i j t1 t1'. unfold fill_cell.
    destruct (getitem s1 (i - 1)); [|done]. cbn [mbind result_bind].
    destruct (getitem s2 (j - 1)); [|done]. cbn [mbind result_bind].
    case_decide.
    - destruct (getitem2 t1 (i - 1) j); [|done]. cbn [mbind result_bind].
      destruct (getitem2 t1 i (j - 1)); [|done]. cbn [mbind result_bind].
      destruct (getitem2 t1 (i - 1) (j - 1)); [|done]. cbn [mbind result_bind].
      apply setitem2_shape.
    - destruct (getitem2 t1 (i - 1) (j - 1)); [|done]. cbn [mbind result_bind].
      apply setitem2_shape. }
  assert (∀ i t t', fill_row s1 s2 (Z.of_nat (length s2)) i t = Ok t' → shape t → shape t')
    as Hrow.
  { intros i t1 t1'. unfold fill_row.
    destruct (getitem2 t1 (i - 1) 0); [|done]. cbn [mbind result_bind].
    destruct (setitem2 t1 i 0 _) as [t2|] eqn:Ht2; [|done]. cbn [mbind result_bind].
    intros Hloop Hshape. eapply (for_each_keeps shape); [apply Hcell | done |].
    by eapply setitem2_shape. }
  destruct (for_each _ fill_top t0) as [t1|] eqn:Ht1; [|done]. cbn [mbind result_bind].
  intros Hloop. eapply (for_each_keeps shape); [apply Hrow | done |].
  by eapply (for_each_keeps shape); [apply Htop | |].
Qed.

Section cost_facts.
Context {T : Type} `{EqDecision T}.
Variables s1 s2 : list T.
Variable t : list (list Distance).
Hypothesis t_ok : table_ok s1 s2 t.

Local Abbreviation n := (Z.of_nat (length s1)).
Local Abbreviation m := (Z.of_nat (length s2)).

(** The cost of a cell lies between the price of the items one prefix has
    more than the other and that price plus one replacement per item of
    the shorter prefix. *)
Lemma cost_at_bounds i j :
  0 ≤ i ≤ n → 0 ≤ j ≤ m →
  3 * Z.abs (i - j) ≤ cost_at t i j ≤ 2 * Z.min i j + 3 * Z.abs (i - j).
Proof.
  remember (Z.to_nat (i + j)) as k eqn:Hk. revert i j Hk.
  induction (lt_wf k) as [k _ IH]. intros i j -> Hi Hj.
  assert (∀ i' j', 0 ≤ i' ≤ n → 0 ≤ j' ≤ m → i' + j' < i + j →
            3 * Z.abs (i' - j') ≤ cost_at t i' j' ≤ 2 * Z.min i' j' + 3 * Z.abs (i' - j'))
    as IH'.
  { intros i' j' Hi' Hj' Hlt. apply (IH (Z.to_nat (i' + j'))); [lia | done | done | done]. }
  clear IH.
  destruct (decide (i = 0)) as [->|Hi0]; [destruct (decide (j = 0)) as [->|Hj0]|
                                          destruct (decide (j = 0)) as [->|Hj0]].
  - rewrite (cost_at_origin s1 s2 t t_ok). lia.
  - rewrite (cost_at_top s1 s2 t t_ok) by lia.
    pose proof (IH' 0 (j - 1) ltac:(lia) ltac:(lia) ltac:(lia)). lia.
  - rewrite (cost_at_left s1 s2 t t_ok) by lia.
    pose proof (IH' (i - 1) 0 ltac:(lia) ltac:(lia) ltac:(lia)). lia.
  - destruct (lookup_lt_is_Some_2 s1 (Z.to_nat (i - 1))) as [a Ha]; [lia|].
    destruct (lookup_lt_is_Some_2 s2 (Z.to_nat (j - 1))) as [b Hb]; [lia|].
    rewrite (cost_at_inner s1 s2 t t_ok i j a b) by (done || lia).
    pose proof (IH' (i - 1) j ltac:(lia) ltac:(lia) ltac:(lia)).
    pose proof (IH' i (j - 1) ltac:(lia) ltac:(lia) ltac:(lia)).
    pose proof (IH' (i - 1) (j - 1) ltac:(lia) ltac:(lia) ltac:(lia)).
    case_decide; lia.
Qed.

(** The cost of a cell is 0 exactly when the two prefixes are equal. *)
Lemma cost_at_zero i j :
  0 ≤ i ≤ n → 0 ≤ j ≤ m →
  cost_at t i j = 0 ↔ take (Z.to_nat i) s1 = take (Z.to_nat j) s2.
Proof.
  remember (Z.to_nat (i + j)) as k eqn:Hk. revert i j Hk.
  induction (lt_wf k) as [k _ IH]. intros i j -> Hi Hj.
  assert (∀ i' j', 0 ≤ i' ≤ n → 0 ≤ j' ≤ m → i' + j' < i + j →
            cost_at t i' j' = 0 ↔ take (Z.to_nat i') s1 = take (Z.to_nat j') s2) as IH'.
  { intros i' j' Hi' Hj' Hlt. apply (IH (Z.to_nat (i' + j'))); [lia | done | done | done]. }
  clear IH.
  assert (take (Z.to_nat i) s1 = take (Z.to_nat j) s2 → i = j) as Hsame.
  { intros Heq. apply (f_equal length) in Heq. rewrite !length_take in Heq. lia. }
  destruct (decide (i = 0)) as [->|Hi0]; [destruct (decide (j = 0)) as [->|Hj0]|
                                          destruct (decide (j = 0)) as [->|Hj0]].
  - rewrite (cost_at_origin s1 s2 t t_ok). done.
  - rewrite (cost_at_top s1 s2 t t_ok) by lia.
    pose proof (cost_at_bounds 0 (j - 1) ltac:(lia) ltac:(lia)).
    split; [lia|]. intros Heq%Hsame. lia.
  - rewrite (cost_at_left s1 s2 t t_ok) by lia.
    pose proof (cost_at_bounds (i - 1) 0 ltac:(lia) ltac:(lia)).
    split; [lia|]. intros Heq%Hsame. lia.
  - destruct (lookup_lt_is_Some_2 s1 (Z.to_nat (i - 1))) as [a Ha]; [lia|].
    destruct (lookup_lt_is_Some_2 s2 (Z.to_nat (j - 1))) as [b Hb]; [lia|].
    rewrite (cost_at_inner s1 s2 t t_ok i j a b) by (done || lia).
    pose proof (cost_at_bounds (i - 1) j ltac:(lia) ltac:(lia)).
    pose proof (cost_at_bounds i (j - 1) ltac:(lia) ltac:(lia)).
    pose proof (cost_at_bounds (i - 1) (j - 1) ltac:(lia) ltac:(lia)).
    replace (Z.to_nat i) with (S (Z.to_nat (i - 1))) by lia.
    replace (Z.to_nat j) with (S (Z.to_nat (j - 1))) by lia.
    rewrite (take_S_r _ _ _ Ha), (take_S_r _ _ _ Hb).
    case_decide as Hab.
    + split; [lia|]. intros Heq. apply app_inj_2 in Heq as [_ [= ?]]; done.
    + subst b. rewrite (IH' (i - 1) (j - 1)) by lia. split.
      * by intros ->.
      * intros Heq. by apply app_inj_2 in Heq as [? _].
Qed.

(** Every cell but the first points back to a neighbouring cell of the
    table, and its cost is the cost of that cell plus the price of the
    move. *)
Lemma back_pointer i j :
  0 ≤ i ≤ n → 0 ≤ j ≤ m → (i, j) ≠ (0, 0) →
  ∃ d d', zcell t i j = Some d ∧ zcell t (prev_i d) (prev_j d) = Some d' ∧
    ((prev_i d = i - 1 ∧ prev_j d = j ∧ 1 ≤ i ∧ cost d = cost d' + 3) ∨
     (prev_i d = i ∧ prev_j d = j - 1 ∧ 1 ≤ j ∧ cost d = cost d' + 3) ∨
     (prev_i d = i - 1 ∧ prev_j d = j - 1 ∧ 1 ≤ i ∧ 1 ≤ j ∧
      (cost d = cost d' ∨ cost d = cost d' + 2))).
Proof.
  intros Hi Hj Hne.
  destruct (t_ok i j Hi Hj) as [Horig | j d Hj1 Hd Hcell | i d Hi1 Hd Hcell
                                | i j a b d_del d_ins d_rep Hi1 Hj1 Ha Hb Hdel Hins Hrep Hcell].
  - done.
  - do 2 eexists. split; [done|]. cbn [prev_i prev_j cost]. split; [done|].
    right. left. unfold INSERT_COST. lia.
  - do 2 eexists. split; [done|]. cbn [prev_i prev_j cost]. split; [done|].
    left. unfold DELETE_COST. lia.
  - rewrite py_min_three in Hcell. cbn [cost] in Hcell.
    unfold DELETE_COST, INSERT_COST, REPLACE_COST in Hcell.
    repeat case_decide; do 2 eexists; (split; [done|]); cbn [prev_i prev_j cost];
      (split; [done|]); lia.
Qed.
End cost_facts.

(** The two tables of two sequences taken in either order record the same
    costs. *)
Lemma cost_at_symmetric {T : Type} `{EqDecision T} (s1 s2 : list T)
    (t t' : list (list Distance)) (i j : Z) :
  table_ok s1 s2 t → table_ok s2 s1 t' →
  0 ≤ i ≤ Z.of_nat (length s1) → 0 ≤ j ≤ Z.of_nat (length s2) →
  cost_at t i j = cost_at t' j i.
Proof.
  intros Hok Hok'. remember (Z.to_nat (i + j)) as k eqn:Hk. revert i j Hk.
  induction (lt_wf k) as [k _ IH]. intros i j -> Hi Hj.
  assert (∀ i' j', 0 ≤ i' ≤ Z.of_nat (length s1) → 0 ≤ j' ≤ Z.of_nat (length s2) →
            i' + j' < i + j → cost_at t i' j' = cost_at t' j' i') as IH'.
  { intros i' j' Hi' Hj' Hlt. apply (IH (Z.to_nat (i' + j'))); [lia | done | done | done]. }
  clear IH.
  destruct (decide (i = 0)) as [->|Hi0]; [destruct (decide (j = 0)) as [->|Hj0]|
                                          destruct (decide (j = 0)) as [->|Hj0]].
  - by rewrite (cost_at_origin s1 s2 t Hok), (cost_at_origin s2 s1 t' Hok').
  - rewrite (cost_at_top s1 s2 t Hok), (cost_at_left s2 s1 t' Hok') by lia.
    rewrite (IH' 0 (j - 1)) by lia. done.
  - rewrite (cost_at_left s1 s2 t Hok), (cost_at_top s2 s1 t' Hok') by lia.
    rewrite (IH' (i - 1) 0) by lia. done.
  - destruct (lookup_lt_is_Some_2 s1 (Z.to_nat (i - 1))) as [a Ha]; [lia|].
    destruct (lookup_lt_is_Some_2 s2 (Z.to_nat (j - 1))) as [b Hb]; [lia|].
    rewrite (cost_at_inner s1 s2 t Hok i j a b) by (done || lia).
    rewrite (cost_at_inner s2 s1 t' Hok' j i b a) by (done || lia).
    rewrite (IH' (i - 1) j), (IH' i (j - 1)), (IH' (i - 1) (j - 1)) by lia.
    repeat case_decide; done || lia.
Qed.

(** The cost in the last cell of the table is at least 3 per item that one
    sequence has more than the other, and at most that plus 2 per item of
    the shorter sequence. *)
Theorem levenstein_distance_bounds {T : Type} `{EqDecision T} (s1 s2 : list T) :
  ∃ t d, levenstein_distance s1 s2 = Ok t ∧
         getitem2 t (Z.of_nat (length s1)) (Z.of_nat (length s2)) = Ok d ∧
         3 * Z.abs (Z.of_nat (length s1) - Z.of_nat (length s2)) ≤ cost d ∧
         cost d ≤ 2 * Z.min (Z.of_nat (length s1)) (Z.of_nat (length s2))
                  + 3 * Z.abs (Z.of_nat (length s1) - Z.of_nat (length s2)).
Proof.
  destruct (levenstein_distance_ok s1 s2) as (t & Ht & Hok).
  destruct (zcell_defined s1 s2 t (Z.of_nat (length s1)) (Z.of_nat (length s2)) Hok)
    as [d Hd]; [lia | lia |].
  exists t, d. split; [done|]. split; [by apply getitem2_zcell|].
  pose proof (cost_at_bounds s1 s2 t Hok (Z.of_nat (length s1)) (Z.of_nat (length s2))
                ltac:(lia) ltac:(lia)) as Hb.
  unfold cost_at in Hb. rewrite Hd in Hb. lia.
Qed.

(** The cost in the last cell of the table is 0 exactly when the two
    sequences are equal, and it is never negative. *)
Theorem levenstein_distance_zero {T : Type} `{EqDecision T} (s1 s2 : list T) :
  ∃ t d, levenstein_distance s1 s2 = Ok t ∧
         getitem2 t (Z.of_nat (length s1)) (Z.of_nat (length s2)) = Ok d ∧
         0 ≤ cost d ∧ (cost d = 0 ↔ s1 = s2).
Proof.
  destruct (levenstein_distance_ok s1 s2) as (t & Ht & Hok).
  destruct (zcell_defined s1 s2 t (Z.of_nat (length s1)) (Z.of_nat (length s2)) Hok)
    as [d Hd]; [lia | lia |].
  exists t, d. split; [done|]. split; [by apply getitem2_zcell|].
  pose proof (cost_at_bounds s1 s2 t Hok (Z.of_nat (length s1)) (Z.of_nat (length s2))
                ltac:(lia) ltac:(lia)) as Hb.
  pose proof (cost_at_zero s1 s2 t Hok (Z.of_nat (length s1)) (Z.of_nat (length s2))
                ltac:(lia) ltac:(lia)) as Hz.
  unfold cost_at in Hb, Hz. rewrite Hd in Hb, Hz.
  rewrite !Nat2Z.id, !firstn_all in Hz. split; [lia | done].
Qed.

(** The cost in the last cell is the same for the two sequences taken in
    either order. *)
Theorem levenstein_distance_symmetric {T : Type} `{EqDecision T} (s1 s2 : list T) :
  ∃ t t' d d',
    levenstein_distance s1 s2 = Ok t ∧
    levenstein_distance s2 s1 = Ok t' ∧
    getitem2 t (Z.of_nat (length s1)) (Z.of_nat (length s2)) = Ok d ∧
    getitem2 t' (Z.of_nat (length s2)) (Z.of_nat (length s1)) = Ok d' ∧
    cost d = cost d'.
Proof.
  destruct (levenstein_distance_ok s1 s2) as (t & Ht & Hok).
  destruct (levenstein_distance_ok s2 s1) as (t' & Ht' & Hok').
  destruct (zcell_defined s1 s2 t (Z.of_nat (length s1)) (Z.of_nat (length s2)) Hok)
    as [d Hd]; [lia | lia |].
  destruct (zcell_defined s2 s1 t' (Z.of_nat (length s2)) (Z.of_nat (length s1)) Hok')
    as [d' Hd']; [lia | lia |].
  exists t, t', d, d'. split; [done|]. split; [done|].
  split; [by apply getitem2_zcell|]. split; [by apply getitem2_zcell|].
  pose proof (cost_at_symmetric s1 s2 t t' (Z.of_nat (length s1)) (Z.of_nat (length s2))
                Hok Hok' ltac:(lia) ltac:(lia)) as Hsym.
  unfold cost_at in Hsym. by rewrite Hd, Hd' in Hsym.
Qed.

(** Every cell of the table but [(0, 0)] points back to the cell above,
    to the left or above-left of it, inside the table, and its cost is the
    cost of that cell plus 3 for a move up or left, and plus 0 or 2 for a
    diagonal move. *)
Theorem levenstein_distance_back_pointers {T : Type} `{EqDecision T}
    (s1 s2 : list T) (i j : Z) :
  0 ≤ i ≤ Z.of_nat (length s1) →
  0 ≤ j ≤ Z.of_nat (length s2) →
  (i, j) ≠ (0, 0) →
  ∃ t d d',
    levenstein_distance s1 s2 = Ok t ∧
    getitem2 t i j = Ok d ∧
    0 ≤ prev_i d ∧ 0 ≤ prev_j d ∧
    getitem2 t (prev_i d) (prev_j d) = Ok d' ∧
    ((prev_i d = i - 1 ∧ prev_j d = j ∧ cost d = cost d' + 3) ∨
     (prev_i d = i ∧ prev_j d = j - 1 ∧ cost d = cost d' + 3) ∨
     (prev_i d = i - 1 ∧ prev_j d = j - 1 ∧ (cost d = cost d' ∨ cost d = cost d' + 2))).
Proof.
  intros Hi Hj Hne. destruct (levenstein_distance_ok s1 s2) as (t & Ht & Hok).
  destruct (back_pointer s1 s2 t Hok i j Hi Hj Hne) as (d & d' & Hd & Hd' & Hmove).
  exists t, d, d'. split; [done|]. split; [by apply getitem2_zcell|].
  split; [lia|]. split; [lia|]. split; [by apply getitem2_zcell|]. lia.
Qed.

Lemma levenstein_distance_back_pointers_witness :
  ∃ t d d',
    levenstein_distance [97; 98] [97; 99; 98] = Ok t ∧
    getitem2 t 2 3 = Ok d ∧
    0 ≤ prev_i d ∧ 0 ≤ prev_j d ∧
    getitem2 t (prev_i d) (prev_j d) = Ok d' ∧
    ((prev_i d = 2 - 1 ∧ prev_j d = 3 ∧ cost d = cost d' + 3) ∨
     (prev_i d = 2 ∧ prev_j d = 3 - 1 ∧ cost d = cost d' + 3) ∨
     (prev_i d = 2 - 1 ∧ prev_j d = 3 - 1 ∧ (cost d = cost d' ∨ cost d = cost d' + 2))).
Proof.
  apply (levenstein_distance_back_pointers [97; 98] [97; 99; 98] 2 3).
  - simpl. lia.
  - simpl. lia.
  - discriminate.
Defined.

(** ** The operations returned by edit_path *)

Lemma count_code_snoc (c : OpCode) (ops : list Operation) (o : Operation) :
  count_code c (ops ++ [o]) =
    (count_code c ops + if decide (code o = c) then 1 else 0)%nat.
Proof.
  unfold count_code. rewrite filter_app, length_app. f_equal.
  rewrite filter_cons, filter_nil. by case_decide.
Qed.

Lemma count_code_cons (c : OpCode) (o : Operation) (ops : list Operation) :
  count_code c (o :: ops) =
    ((if decide (code o = c) then 1 else 0) + count_code c ops)%nat.
Proof. unfold count_code. rewrite filter_cons. by case_decide. Qed.

(** Along a walk the INSERTs and the DELETEs account for the difference
    of the two coordinates, and the new bytes are items of [s2], or the 0
    of a DELETE. *)
Lemma script_accounts (s1 s2 : list Z) (t : list (list Distance)) (i j : Z)
    (ops : list Operation) :
  script s1 s2 t i j ops →
  Z.of_nat (count_code INSERT ops) - Z.of_nat (count_code DELETE ops) = j - i ∧
  Forall (λ o, match code o with
               | DELETE => new_byte o = 0
               | _ => new_byte o ∈ s2
               end) ops.
Proof.
  induction 1 as [Horig | i j d' ops Hi Hj Hd' Hcell Hs [IHc IHb]
                  | i j d' b ops Hi Hj Hd' Hcell Hb Hs [IHc IHb]
                  | i j d' a b ops Hi Hj Hd' Hcell Ha Hb Hab Hs [IHc IHb]
                  | i j d' a ops Hi Hj Hd' Hcell Ha Hb Hs [IHc IHb]].
  - split; [done | constructor].
  - rewrite !count_code_snoc. cbn [code]. split.
    + rewrite decide_False by done. rewrite decide_True by done. lia.
    + apply Forall_app. split; [done|]. by repeat constructor.
  - rewrite !count_code_snoc. cbn [code]. split.
    + rewrite decide_True by done. rewrite decide_False by done. lia.
    + apply Forall_app. split; [done|]. repeat constructor. cbn [code new_byte].
      by eapply list_elem_of_lookup_2.
  - rewrite !count_code_snoc. cbn [code]. split.
    + rewrite !decide_False by done. lia.
    + apply Forall_app. split; [done|]. repeat constructor. cbn [code new_byte].
      by eapply list_elem_of_lookup_2.
  - split; [lia | done].
Qed.

(** In every list that [edit_path] returns, the INSERTs outnumber the
    DELETEs by [len(s2) - len(s1)], there are at most
    [len(s1) + len(s2) + 1] operations, the new byte of a DELETE is 0, and
    the new byte of an INSERT or a REPLACE is an item of [s2]. *)
Theorem edit_path_accounts (s1 s2 : list Z) (fuel : nat) (ops : list Operation) :
  edit_path fuel s1 s2 = Some (Ok ops) →
  Z.of_nat (count_code INSERT ops) - Z.of_nat (count_code DELETE ops)
    = Z.of_nat (length s2) - Z.of_nat (length s1) ∧
  (length ops ≤ length s1 + length s2 + 1)%nat ∧
  Forall (λ o, match code o with
               | DELETE => new_byte o = 0
               | _ => new_byte o ∈ s2
               end) ops.
Proof.
  intros Hrun. apply edit_path_answer in Hrun as (t & ops' & Ht & Hok & Hops & Hres).
  destruct (script_accounts _ _ _ _ _ _ Hops) as [Hcount Hbytes].
  pose proof (script_length _ _ _ _ _ _ Hops) as Hlen.
  unfold edit_path_result in Hres.
  destruct (last s1) as [a|]; [|done]. destruct (last s2) as [b|] eqn:Hb; [|done].
  case_decide; simplify_eq.
  - rewrite !count_code_cons. cbn [code]. rewrite !decide_False by done.
    split; [lia|]. split; [simpl; lia|].
    constructor; [|done]. cbn [code new_byte]. by apply last_Some_elem_of.
  - split; [done|]. split; [lia | done].
Qed.

Lemma edit_path_accounts_witness :
  Z.of_nat (count_code INSERT [mkOperation REPLACE 1 120; mkOperation INSERT 2 121])
    - Z.of_nat (count_code DELETE [mkOperation REPLACE 1 120; mkOperation INSERT 2 121])
    = Z.of_nat (length [97; 120; 121; 99]) - Z.of_nat (length [97; 98; 99]) ∧
  (length [mkOperation REPLACE 1 120; mkOperation INSERT 2 121]
     ≤ length [97; 98; 99] + length [97; 120; 121; 99] + 1)%nat ∧
  Forall (λ o, match code o with
               | DELETE => new_byte o = 0
               | _ => new_byte o ∈ [97; 120; 121; 99]
               end) [mkOperation REPLACE 1 120; mkOperation INSERT 2 121].
Proof.
  apply (edit_path_accounts [97; 98; 99] [97; 120; 121; 99] 10).
  vm_compute. reflexivity.
Defined.

(** ** Which patches the replay loop can finish *)

Section replay_reach.
Variable old_data : list Z.
Variable edits : list Operation.
Hypothesis old_bytes : Forall (λ x, 0 ≤ x < 256) old_data.

(** [k] passes in a row that copy original bytes, while the operation at
    [edit_i] is located outside the stretch copied. *)
Lemma apply_loop_copy_run (k : nat) (pos edit_i : Z) (out : list Z) :
  0 ≤ pos → 0 ≤ edit_i →
  ((0 < k)%nat → pos + Z.of_nat k ≤ Z.of_nat (length old_data)) →
  (∀ edit, edits !! Z.to_nat edit_i = Some edit →
           ¬ (pos ≤ location edit < pos + Z.of_nat k)) →
  ∀ fuel, apply_loop (k + fuel) old_data edits pos edit_i out =
          apply_loop fuel old_data edits (pos + Z.of_nat k) edit_i
            (out ++ take k (drop (Z.to_nat pos) old_data)).
Proof.
  revert pos out. induction k as [|k IH]; intros pos out Hpos Hi Hend Hmiss fuel.
  - rewrite Z.add_0_r, take_0, app_nil_r. done.
  - specialize (Hend ltac:(lia)).
    destruct (lookup_lt_is_Some_2 old_data (Z.to_nat pos)) as [x Hx]; [lia|].
    change (S k + fuel)%nat with (S (k + fuel)).
    rewrite apply_loop_unfold by (left; lia).
    rewrite (apply_body_copy _ _ _ _ _ x); [| done | | done | done |].
    + rewrite IH; [| lia | done | lia |].
      * rewrite (drop_S _ _ _ Hx). cbn [take]. rewrite <- app_assoc.
        replace (Z.to_nat (pos + 1)) with (S (Z.to_nat pos)) by lia.
        f_equal. lia.
      * intros edit Hedit Hin. apply (Hmiss edit Hedit). lia.
    + intros edit Hedit Hloc. apply (Hmiss edit Hedit). lia.
    + rewrite Forall_lookup in old_bytes. by eapply old_bytes.
Qed.

Lemma apply_loop_never (k : nat) (data_i edit_i : Z) (out : list Z) :
  (∀ fuel, apply_loop (k + fuel) old_data edits data_i edit_i out = None) →
  ∀ fuel, apply_loop fuel old_data edits data_i edit_i out = None.
Proof.
  intros Hlate fuel.
  destruct (apply_loop fuel old_data edits data_i edit_i out) as [r|] eqn:Hrun; [|done].
  apply (apply_loop_more_fuel _ _ _ (k + fuel)) in Hrun; [|lia].
  by rewrite Hlate in Hrun.
Qed.
End replay_reach.

(** From the data cursor [pos], with the operations [pre] done and the
    operations [es] to do: the loop finishes and writes [patched] when
    every location is met in turn, and never ends otherwise. *)
Lemma apply_loop_reachable (old_data : list Z) (es pre : list Operation) (pos : Z) (out : list Z) :
  Forall (λ x, 0 ≤ x < 256) old_data →
  Forall (λ o, 0 ≤ new_byte o < 256) es →
  0 ≤ pos →
  if reachable (Z.of_nat (length old_data)) pos es
  then ∃ k, (k ≤ Z.to_nat (Z.of_nat (length old_data) - pos) + length es)%nat ∧
            ∀ fuel, apply_loop (k + fuel) old_data (pre ++ es) pos (Z.of_nat (length pre)) out
                    = Some (Ok (out ++ patched old_data pos es))
  else ∀ fuel, apply_loop fuel old_data (pre ++ es) pos (Z.of_nat (length pre)) out = None.
Proof.
  intros Hold. revert pre pos out.
  induction es as [|edit es IH]; intros pre pos out Hnew Hpos.
  - cbn [reachable patched].
    exists (Z.to_nat (Z.of_nat (length old_data) - pos)). split; [simpl; lia|].
    intros fuel. rewrite apply_loop_copy_run; [| done | done | lia | lia |].
    + rewrite apply_loop_exit by (rewrite ?length_app; simpl; lia).
      rewrite take_ge; [done|]. rewrite length_drop. lia.
    + intros edit Hedit. apply lookup_lt_Some in Hedit.
      rewrite length_app in Hedit. simpl in Hedit. lia.
  - apply Forall_cons in Hnew as [Hbyte Hnew].
    assert ((pre ++ edit :: es) !! Z.to_nat (Z.of_nat (length pre)) = Some edit) as Hedit.
    { rewrite Nat2Z.id. apply list_lookup_middle. done. }
    cbn [reachable patched]. case_bool_decide as Hmet; cbn [andb].
    + set (l := location edit) in *.
      set (pos' := match code edit with INSERT => l | _ => l + 1 end).
      assert (∀ fuel,
                apply_loop (Z.to_nat (l - pos) + S fuel) old_data (pre ++ edit :: es)
                  pos (Z.of_nat (length pre)) out =
                apply_loop fuel old_data ((pre ++ [edit]) ++ es)
                  pos' (Z.of_nat (length (pre ++ [edit])))
                  (out ++ take (Z.to_nat (l - pos)) (drop (Z.to_nat pos) old_data) ++
                   match code edit with DELETE => [] | _ => [new_byte edit] end)) as Hstep.
      { intros fuel. rewrite apply_loop_copy_run; [| done | done | lia | lia |].
        - rewrite apply_loop_unfold by (right; rewrite length_app; simpl; lia).
          rewrite (apply_body_hit _ _ _ _ _ edit); [| lia | done | fold l; lia | done].
          rewrite <- (app_assoc pre [edit] es). cbn [app].
          rewrite length_app. cbn [length]. subst pos'.
          replace (pos + Z.of_nat (Z.to_nat (l - pos))) with l by lia.
          replace (Z.of_nat (length pre + 1)) with (Z.of_nat (length pre) + 1) by lia.
          destruct (code edit); by rewrite <- ?app_assoc, ?app_nil_r.
        - intros edit' Hedit'. rewrite Hedit in Hedit'. injection Hedit' as <-. fold l. lia. }
      specialize (IH (pre ++ [edit]) pos' (out ++ take (Z.to_nat (l - pos))
                        (drop (Z.to_nat pos) old_data) ++
                        match code edit with DELETE => [] | _ => [new_byte edit] end)
                    Hnew ltac:(subst pos'; destruct (code edit); lia)).
      destruct (reachable (Z.of_nat (length old_data)) pos' es).
      * destruct IH as (k & Hk & Hrun).
        exists (Z.to_nat (l - pos) + S k)%nat. split.
        { cbn [length]. subst pos'. destruct (code edit); lia. }
        intros fuel.
        replace (Z.to_nat (l - pos) + S k + fuel)%nat
          with (Z.to_nat (l - pos) + S (k + fuel))%nat by lia.
        rewrite Hstep, Hrun. do 2 f_equal.
        subst pos'. destruct (code edit); by rewrite <- ?app_assoc.
      * apply (apply_loop_never _ _ (Z.to_nat (l - pos) + 1)). intros fuel.
        replace (Z.to_nat (l - pos) + 1 + fuel)%nat
          with (Z.to_nat (l - pos) + S fuel)%nat by lia.
        rewrite Hstep. apply IH.
    + apply (apply_loop_never _ _ (Z.to_nat (Z.of_nat (length old_data) - pos))). intros fuel.
      rewrite apply_loop_copy_run; [| done | done | lia | lia |].
      * apply apply_loop_dangling. split; [lia|]. split; [lia|].
        exists edit. split; [done|]. lia.
      * intros edit' Hedit'. rewrite Hedit in Hedit'. injection Hedit' as <-. lia.
Qed.

(** The replay of a list of operations on a file of bytes, decided
    beforehand: when the data cursor meets every location in turn
    ([reachable]), the loop ends within [len(old_data) + len(edits)] passes
    and writes [patched]; otherwise it runs forever. *)
Theorem apply_edits_reachable (old_data : list Z) (edits : list Operation) :
  Forall (λ x, 0 ≤ x < 256) old_data →
  Forall (λ o, 0 ≤ new_byte o < 256) edits →
  if reachable (Z.of_nat (length old_data)) 0 edits
  then ∀ fuel, (length old_data + length edits ≤ fuel)%nat →
               apply_edits fuel old_data edits = Some (Ok (patched old_data 0 edits))
  else ∀ fuel, apply_edits fuel old_data edits = None.
Proof.
  intros Hold Hnew.
  pose proof (apply_loop_reachable old_data edits [] 0 [] Hold Hnew ltac:(lia)) as Hrun.
  cbn [app length] in Hrun. change (Z.of_nat 0) with 0 in Hrun. unfold apply_edits.
  destruct (reachable (Z.of_nat (length old_data)) 0 edits); [|done].
  destruct Hrun as (k & Hk & Hrun). intros fuel Hfuel.
  replace fuel with (k + (fuel - k))%nat by lia. by rewrite Hrun.
Qed.

Lemma apply_edits_reachable_witness :
  (∀ fuel, (3 + 3 ≤ fuel)%nat →
     apply_edits fuel [97; 98; 99]
       [mkOperation INSERT 1 120; mkOperation DELETE 1 0; mkOperation REPLACE 3 121]
     = Some (Ok [97; 120; 99; 121])) ∧
  (∀ fuel, apply_edits fuel [97; 98; 99] [mkOperation DELETE 1 0; mkOperation INSERT 1 120]
           = None).
Proof.
  split.
  - apply (apply_edits_reachable [97; 98; 99]
             [mkOperation INSERT 1 120; mkOperation DELETE 1 0; mkOperation REPLACE 3 121]).
    + repeat constructor; lia.
    + repeat constructor; simpl; lia.
  - apply (apply_edits_reachable [97; 98; 99]
             [mkOperation DELETE 1 0; mkOperation INSERT 1 120]).
    + repeat constructor; lia.
    + repeat constructor; simpl; lia.
Defined.

(** ** Patch files and operation lists, both ways *)

Lemma le_bytes_of_bytes (b0 b1 b2 b3 : Z) :
  0 ≤ b0 < 256 → 0 ≤ b1 < 256 → 0 ≤ b2 < 256 → 0 ≤ b3 < 256 →
  0 ≤ b0 + 256 * b1 + 65536 * b2 + 16777216 * b3 < 2 ^ 32 ∧
  le_bytes (b0 + 256 * b1 + 65536 * b2 + 16777216 * b3) = [b0; b1; b2; b3].
Proof.
  intros H0 H1 H2 H3. split; [lia|]. unfold le_bytes.
  set (x := b0 + 256 * b1 + 65536 * b2 + 16777216 * b3).
  assert (x `mod` 256 = b0) as -> by (subst x; Z.div_mod_to_equations; lia).
  assert (x / 256 = b1 + 256 * b2 + 65536 * b3) as Hd1
    by (subst x; Z.div_mod_to_equations; lia).
  assert (x / 65536 = b2 + 256 * b3) as Hd2 by (subst x; Z.div_mod_to_equations; lia).
  assert (x / 16777216 = b3) as Hd3 by (subst x; Z.div_mod_to_equations; lia).
  rewrite Hd1, Hd2, Hd3.
  assert ((b1 + 256 * b2 + 65536 * b3) `mod` 256 = b1) as ->
    by (Z.div_mod_to_equations; lia).
  assert ((b2 + 256 * b3) `mod` 256 = b2) as -> by (Z.div_mod_to_equations; lia).
  by rewrite Z.mod_small by lia.
Qed.

(** Four bytes unpacked and packed again are the same four bytes. *)
Lemma struct_pack_unpack_I (order : byteorder) (b0 b1 b2 b3 : Z) :
  0 ≤ b0 < 256 → 0 ≤ b1 < 256 → 0 ≤ b2 < 256 → 0 ≤ b3 < 256 →
  ∃ l, struct_unpack_I order [b0; b1; b2; b3] = Ok l ∧
       0 ≤ l < 2 ^ 32 ∧
       struct_pack_I order l = Ok [b0; b1; b2; b3].
Proof.
  intros H0 H1 H2 H3. destruct order; cbn [struct_unpack_I].
  - destruct (le_bytes_of_bytes b0 b1 b2 b3) as [Hr Hle]; [done..|].
    eexists. split; [done|]. split; [done|].
    unfold struct_pack_I. rewrite decide_True by done. by rewrite Hle.
  - destruct (le_bytes_of_bytes b3 b2 b1 b0) as [Hr Hle]; [done..|].
    eexists. split; [done|]. split; [done|].
    unfold struct_pack_I. rewrite decide_True by done. by rewrite Hle.
Qed.

Lemma encode_decode_edit (order : byteorder) (r : list Z) (o : Operation) :
  Forall (λ x, 0 ≤ x < 256) r →
  length r = 6%nat →
  decode_edit order r = Ok o →
  fits_record o ∧ encode_edit order o = Ok r.
Proof.
  intros Hbytes Hlen.
  destruct r as [|x [|b0 [|b1 [|b2 [|b3 [|y [|]]]]]]]; try done.
  decompose_Forall_hyps.
  rewrite decode_edit_record.
  destruct (OpCode_of x) as [c|] eqn:Hc; [|done]. cbn [mbind result_bind].
  destruct (struct_pack_unpack_I order b0 b1 b2 b3) as (l & -> & Hl & Hpack); [done..|].
  cbn [mbind result_bind]. intros [= <-]. split; [done|].
  unfold encode_edit. cbn [location code new_byte]. rewrite Hpack. cbn [mbind result_bind].
  apply OpCode_of_Ok in Hc as ->. cbn [app].
  apply py_bytes_ok. repeat constructor; lia.
Qed.

Lemma write_read_edits_fits (order : byteorder) (f : list Z) (ops : list Operation) :
  Forall (λ x, 0 ≤ x < 256) f →
  read_edits order f = Ok ops →
  Forall fits_record ops ∧ write_edits order ops = Ok f.
Proof.
  remember (length f) as len eqn:Hlen. revert f ops Hlen.
  induction (lt_wf len) as [len _ IH]. intros f ops -> Hbytes.
  destruct (decide (length f = 0%nat)) as [Hnil|Hnonnil].
  { apply length_zero_iff_nil in Hnil as ->. cbn. intros [= <-]. by split. }
  destruct (decide (length f < 6)%nat) as [Hshort|Hlong].
  { unfold read_edits. by rewrite file_iter_short by lia. }
  assert (∃ r rest, f = r ++ rest ∧ length r = 6%nat) as (r & rest & -> & Hr).
  { exists (take 6 f), (drop 6 f). split; [by rewrite take_drop | rewrite length_take; lia]. }
  apply Forall_app in Hbytes as [Hbr Hbrest].
  rewrite (read_edits_record order _ _ Hr).
  destruct (decode_edit order r) as [o|] eqn:Ho; [|done]. cbn [mbind result_bind].
  destruct (read_edits order rest) as [ops'|] eqn:Hrest; [|done]. cbn [mbind result_bind].
  intros [= <-].
  destruct (encode_decode_edit order r o Hbr Hr Ho) as [Hfits Henc].
  destruct (IH (length rest) ltac:(rewrite length_app; lia) rest ops' eq_refl Hbrest Hrest)
    as [Hfits' Hwrite].
  split; [by constructor|]. by rewrite write_edits_cons, Henc, Hwrite.
Qed.

(** A patch file of bytes that [read_edits] accepts holds operations that
    fit their records, and writing these operations gives the file back:
    with C3, files of whole records with known tags and lists of fitting
    operations correspond one to one. *)
Theorem write_read_edits (order : byteorder) (f : list Z) (ops : list Operation) :
  Forall (λ x, 0 ≤ x < 256) f →
  read_edits order f = Ok ops →
  Forall fits_record ops ∧ write_edits order ops = Ok f.
Proof. apply write_read_edits_fits. Qed.

Lemma write_read_edits_witness :
  Forall fits_record [mkOperation REPLACE 513 65; mkOperation DELETE 0 7] ∧
  write_edits little [mkOperation REPLACE 513 65; mkOperation DELETE 0 7]
    = Ok [2; 1; 2; 0; 0; 65; 1; 0; 0; 0; 0; 7].
Proof.
  apply (write_read_edits little [2; 1; 2; 0; 0; 65; 1; 0; 0; 0; 0; 7]).
  - repeat constructor; lia.
  - vm_compute. reflexivity.
Defined.

(** What [encode_edit] does with an operation that does not fit. *)
Lemma encode_edit_cases (order : byteorder) (o : Operation) :
  (fits_record o ∧ ∃ r, encode_edit order o = Ok r ∧ length r = 6%nat) ∨
  (¬ 0 ≤ location o < 2 ^ 32 ∧ encode_edit order o = Raise StructError) ∨
  (0 ≤ location o < 2 ^ 32 ∧ ¬ 0 ≤ new_byte o < 256 ∧ encode_edit order o = Raise ValueError).
Proof.
  destruct (decide (0 ≤ location o < 2 ^ 32)) as [Hloc|Hloc].
  - destruct (decide (0 ≤ new_byte o < 256)) as [Hbyte|Hbyte].
    + left. split; [done|].
      destruct (decode_encode_edit order o) as (r & Hr & Hlen & _); [done|]. by exists r.
    + right. right. split; [done|]. split; [done|].
      unfold encode_edit, struct_pack_I. rewrite decide_True by done.
      cbn [mbind result_bind]. unfold py_bytes. rewrite decide_False; [done|].
      intros Hall. apply Hbyte.
      apply Forall_cons in Hall as [_ Hall]. apply Forall_app in Hall as [_ Hall].
      exact (Forall_inv Hall).
  - right. left. split; [done|]. unfold encode_edit, struct_pack_I.
    by rewrite decide_False.
Qed.

Lemma write_edits_cases (order : byteorder) (edits : list Operation) :
  match write_edits order edits with
  | Ok f => Forall fits_record edits ∧ length f = (6 * length edits)%nat
  | Raise StructError => Exists (λ o, ¬ 0 ≤ location o < 2 ^ 32) edits
  | Raise ValueError => Exists (λ o, ¬ 0 ≤ new_byte o < 256) edits
  | Raise _ => False
  end.
Proof.
  induction edits as [|o edits IH]; [by split|].
  rewrite write_edits_cons.
  destruct (encode_edit_cases order o)
    as [[Hfits (r & -> & Hlen)] | [[Hloc ->] | (_ & Hbyte & ->)]]; cbn [mbind result_bind].
  - destruct (write_edits order edits) as [f|e]; cbn [mbind result_bind].
    + destruct IH as [IHfits IHlen]. split; [by constructor|].
      rewrite length_app. simpl. lia.
    + destruct e; try done; by apply Exists_cons_tl.
  - by apply Exists_cons_hd.
  - by apply Exists_cons_hd.
Qed.

(** The answer of the loop of [calculate_diff]: a file of six bytes per
    operation when every operation fits its record; struct.error only when
    a location is outside [0, 2**32), ValueError only when a new byte is
    outside [0, 256). *)
Theorem write_edits_outcome (order : byteorder) (edits : list Operation) :
  match write_edits order edits with
  | Ok f => Forall fits_record edits ∧ length f = (6 * length edits)%nat
  | Raise StructError => Exists (λ o, ¬ 0 ≤ location o < 2 ^ 32) edits
  | Raise ValueError => Exists (λ o, ¬ 0 ≤ new_byte o < 256) edits
  | Raise _ => False
  end.
Proof. apply write_edits_cases. Qed.

(** ** The patch written by calculate_diff *)

(** When [calculate_diff] writes a patch, the patch holds six bytes for
    each operation that [edit_path] returned, at most
    [6 * (len(old_data) + len(new_data))] bytes in all, and [read_edits]
    reads these operations back from it. *)
Theorem calculate_diff_patch (order : byteorder) (fuel : nat) (old_data new_data f : list Z) :
  calculate_diff order fuel old_data new_data = Some (Ok f) →
  ∃ ops, edit_path fuel old_data new_data = Some (Ok ops) ∧
         read_edits order f = Ok ops ∧
         length f = (6 * length ops)%nat ∧
         (length f ≤ 6 * (length old_data + length new_data))%nat.
Proof.
  unfold calculate_diff.
  destruct (edit_path fuel old_data new_data) as [[ops|e]|] eqn:Hpath; [|done..].
  intros [= Hwrite]. exists ops. split; [done|].
  pose proof (write_edits_cases order ops) as Hout. rewrite Hwrite in Hout.
  destruct Hout as [Hfits Hlen].
  destruct (read_write_edits order ops Hfits) as (f' & Hf' & _ & Hread).
  rewrite Hwrite in Hf'. injection Hf' as <-.
  split; [done|]. split; [done|].
  apply edit_path_answer in Hpath as (t & ops' & _ & _ & Hops & Hres).
  pose proof (script_length _ _ _ _ _ _ Hops) as Hlen'.
  unfold edit_path_result in Hres.
  destruct (last old_data) as [a|]; [|done]. destruct (last new_data) as [b|]; [|done].
  case_decide; simplify_eq; lia.
Qed.

Lemma calculate_diff_patch_witness :
  ∃ ops, edit_path 10 [97; 99] [97; 98; 99] = Some (Ok ops) ∧
         read_edits big [0; 0; 0; 0; 1; 98] = Ok ops ∧
         length [0; 0; 0; 0; 1; 98] = (6 * length ops)%nat ∧
         (length [0; 0; 0; 0; 1; 98] ≤ 6 * (length [97; 99] + length [97; 98; 99]))%nat.
Proof.
  apply (calculate_diff_patch big 10 [97; 99] [97; 98; 99] [0; 0; 0; 0; 1; 98]).
  vm_compute. reflexivity.
Defined.

(** ** What apply_patch writes *)

Lemma apply_edits_decided (old_data : list Z) (edits : list Operation) :
  Forall (λ x, 0 ≤ x < 256) old_data →
  Forall (λ o, 0 ≤ new_byte o < 256) edits →
  if reachable (Z.of_nat (length old_data)) 0 edits
  then ∀ fuel, (length old_data + length edits ≤ fuel)%nat →
               apply_edits fuel old_data edits = Some (Ok (patched old_data 0 edits))
  else ∀ fuel, apply_edits fuel old_data edits = None.
Proof.
  intros Hold Hnew.
  pose proof (apply_loop_reachable old_data edits [] 0 [] Hold Hnew ltac:(lia)) as Hrun.
  cbn [app length] in Hrun. change (Z.of_nat 0) with 0 in Hrun. unfold apply_edits.
  destruct (reachable (Z.of_nat (length old_data)) 0 edits); [|done].
  destruct Hrun as (k & Hk & Hrun). intros fuel Hfuel.
  replace fuel with (k + (fuel - k))%nat by lia. by rewrite Hrun.
Qed.

Lemma apply_edits_Ok_patched (old_data : list Z) (edits : list Operation)
    (fuel : nat) (r : result (list Z)) :
  Forall (λ x, 0 ≤ x < 256) old_data →
  Forall (λ o, 0 ≤ new_byte o < 256) edits →
  apply_edits fuel old_data edits = Some r →
  reachable (Z.of_nat (length old_data)) 0 edits = true ∧
  r = Ok (patched old_data 0 edits).
Proof.
  intros Hold Hnew Hrun. pose proof (apply_edits_decided old_data edits Hold Hnew) as Hdec.
  destruct (reachable (Z.of_nat (length old_data)) 0 edits).
  - split; [done|].
    apply (apply_loop_more_fuel _ _ _ (fuel `max` (length old_data + length edits))) in Hrun;
      [|lia].
    unfold apply_edits in Hdec. rewrite Hdec in Hrun by lia. congruence.
  - by rewrite Hdec in Hrun.
Qed.

Lemma patched_length (old_data : list Z) (edits : list Operation) (pos : Z) :
  Forall (λ o, code o ≠ INSERT → location o < Z.of_nat (length old_data)) edits →
  0 ≤ pos ≤ Z.of_nat (length old_data) →
  reachable (Z.of_nat (length old_data)) pos edits = true →
  Z.of_nat (length (patched old_data pos edits)) =
    Z.of_nat (length old_data) - pos
    + Z.of_nat (count_code INSERT edits) - Z.of_nat (count_code DELETE edits).
Proof.
  revert pos. induction edits as [|edit edits IH]; intros pos Hbounds Hpos Hreach.
  - cbn [patched]. rewrite length_drop. unfold count_code. simpl. lia.
  - apply Forall_cons in Hbounds as [Hb Hbounds].
    cbn [reachable] in Hreach. apply andb_prop in Hreach as [Hmet Hreach].
    apply bool_decide_eq_true in Hmet.
    cbn [patched]. rewrite length_app, length_take, length_drop, !count_code_cons.
    rewrite Nat2Z.inj_add.
    destruct (code edit) eqn:Hcode.
    + cbn [length]. rewrite Nat2Z.inj_succ.
      rewrite (IH (location edit)) by (done || lia).
      rewrite decide_True by done. rewrite decide_False by done. lia.
    + specialize (Hb ltac:(done)).
      rewrite (IH (location edit + 1)) by (done || lia).
      rewrite decide_False by done. rewrite decide_True by done. lia.
    + specialize (Hb ltac:(done)). cbn [length]. rewrite Nat2Z.inj_succ.
      rewrite (IH (location edit + 1)) by (done || lia).
      rewrite !decide_False by done. lia.
Qed.

(** When the replay of operations whose DELETE and REPLACE locations are
    positions of the old data ends, the output has the length of the old
    data plus one byte per INSERT and minus one byte per DELETE. *)
Theorem apply_edits_length (old_data : list Z) (edits : list Operation)
    (fuel : nat) (out : list Z) :
  Forall (λ x, 0 ≤ x < 256) old_data →
  Forall (λ o, 0 ≤ new_byte o < 256) edits →
  Forall (λ o, code o ≠ INSERT → location o < Z.of_nat (length old_data)) edits →
  apply_edits fuel old_data edits = Some (Ok out) →
  Z.of_nat (length out) =
    Z.of_nat (length old_data)
    + Z.of_nat (count_code INSERT edits) - Z.of_nat (count_code DELETE edits).
Proof.
  intros Hold Hnew Hbounds Hrun.
  apply apply_edits_Ok_patched in Hrun as [Hreach [= ->]]; [|done..].
  rewrite (patched_length old_data edits 0) by (done || lia). lia.
Qed.

Lemma apply_edits_length_witness :
  Z.of_nat (length [97; 120; 121]) =
    Z.of_nat (length [97; 98; 99])
    + Z.of_nat (count_code INSERT
                  [mkOperation INSERT 1 120; mkOperation DELETE 1 0; mkOperation REPLACE 2 121])
    - Z.of_nat (count_code DELETE
                  [mkOperation INSERT 1 120; mkOperation DELETE 1 0; mkOperation REPLACE 2 121]).
Proof.
  apply (apply_edits_length [97; 98; 99]
           [mkOperation INSERT 1 120; mkOperation DELETE 1 0; mkOperation REPLACE 2 121] 10).
  - repeat constructor; lia.
  - repeat constructor; simpl; lia.
  - do 3 (apply Forall_cons_2; [simpl; intros Hc; lia || done|]). apply Forall_nil_2.
  - vm_compute. reflexivity.
Defined.

(** [apply_patch] on an old file and a patch file of bytes: it raises what
    [read_edits] raises, before any byte is replayed; on a patch that reads
    as a list of operations it writes [patched] when the data cursor meets
    every location in turn, and runs forever otherwise.  The replay itself
    raises nothing. *)
Theorem apply_patch_outcome (order : byteorder) (old_file patch_file : list Z) :
  Forall (λ x, 0 ≤ x < 256) old_file →
  Forall (λ x, 0 ≤ x < 256) patch_file →
  match read_edits order patch_file with
  | Raise e => ∀ fuel, apply_patch order fuel old_file patch_file = Some (Raise e)
  | Ok edits =>
      if reachable (Z.of_nat (length old_file)) 0 edits
      then ∀ fuel, (length old_file + length edits ≤ fuel)%nat →
             apply_patch order fuel old_file patch_file
             = Some (Ok (patched old_file 0 edits))
      else ∀ fuel, apply_patch order fuel old_file patch_file = None
  end.
Proof.
  intros Hold Hpatch. unfold apply_patch.
  destruct (read_edits order patch_file) as [edits|e] eqn:Hread; [|done].
  destruct (write_read_edits_fits order patch_file edits Hpatch Hread) as [Hfits _].
  apply apply_edits_decided; [done|].
  eapply Forall_impl; [exact Hfits|]. by intros o [_ ?].
Qed.

Lemma apply_patch_outcome_witness :
  (∀ fuel, (2 + 1 ≤ fuel)%nat →
     apply_patch little fuel [97; 99] [0; 1; 0; 0; 0; 98] = Some (Ok [97; 98; 99])) ∧
  (∀ fuel, apply_patch little fuel [97; 99] [0; 3; 0; 0; 0; 98] = None) ∧
  (∀ fuel, apply_patch little fuel [97; 99] [0; 1; 0; 0; 0] = Some (Raise AssertionError)).
Proof.
  split; [|split].
  - apply (apply_patch_outcome little [97; 99] [0; 1; 0; 0; 0; 98]); repeat constructor; lia.
  - apply (apply_patch_outcome little [97; 99] [0; 3; 0; 0; 0; 98]); repeat constructor; lia.
  - apply (apply_patch_outcome little [97; 99] [0; 1; 0; 0; 0]); repeat constructor; lia.
Defined.
